(** * A model of [eleventy.config.js]

    The configuration registers collections, filters, transforms and
    compile steps with the site generator.  Each of them is embedded here
    as a Rocq function that follows the JavaScript callback line by line.
    What the callbacks delegate to third-party packages (the glob matcher,
    the HTML and XML minifiers, PostCSS, esbuild, the DOM parser, [Intl])
    is taken as a variable of the section that defines the callback; what
    belongs to the language itself (strings, regular expressions, [Date]
    arithmetic) is modelled from ECMAScript.

    Strings are [string]s of 8-bit characters.  Every character the
    configuration inspects is ASCII, so a UTF-8 reading of the content gives
    the same result as the UTF-16 code units of the engine. *)

From Stdlib Require Import String Ascii List ZArith Lia Bool Arith Sorted.
Import ListNotations.

Local Open Scope string_scope.

(** ** ECMAScript strings *)

Module JSString.

(** The double quote character, U+0022. *)
Definition dquote : ascii := ascii_of_nat 34.

(** The one-character string made of a double quote. *)
Definition quote : string := String dquote EmptyString.

(** [String.prototype.slice(start, end)], with negative indices counted
    from the end and both bounds clamped to the string. *)
Definition clamp_index (len i : Z) : Z :=
  if (i <? 0)%Z then Z.max (len + i) 0 else Z.min i len.

Definition slice (s : string) (start fin : Z) : string :=
  let len := Z.of_nat (String.length s) in
  let from := clamp_index len start in
  let to := clamp_index len fin in
  substring (Z.to_nat from) (Z.to_nat (Z.max (to - from) 0)) s.

(** [slice(start)] with the end left out. *)
Definition slice_from (s : string) (start : Z) : string :=
  slice s start (Z.of_nat (String.length s)).

(** [String.prototype.endsWith(searchString)]. *)
Definition endsWith (s search : string) : bool :=
  let len := String.length s in
  let searchLength := String.length search in
  if (len <? searchLength)%nat then false
  else String.eqb (substring (len - searchLength) searchLength s) search.

(** [String.prototype.split(separator)] for a one-character separator;
    the result always has at least one element. *)
Fixpoint split (sep : ascii) (s : string) : list string :=
  match s with
  | EmptyString => [EmptyString]
  | String c s' =>
      if Ascii.eqb c sep then EmptyString :: split sep s'
      else match split sep s' with
           | piece :: pieces => String c piece :: pieces
           | [] => [String c EmptyString]
           end
  end.

(** Whether the character [c] occurs in [s]. *)
Fixpoint contains (c : ascii) (s : string) : bool :=
  match s with
  | EmptyString => false
  | String d s' => Ascii.eqb d c || contains c s'
  end.

(** [Array.prototype.includes] on an array of strings. *)
Definition includes (xs : list string) (x : string) : bool :=
  existsb (String.eqb x) xs.

End JSString.

(** ** Regular expressions

    The only pattern of the configuration is a disjunction of fixed
    sequences of literal characters and negated character classes, so an
    alternative is a list of atoms and a pattern a list of alternatives,
    tried from left to right. *)

Module RegExp.

Inductive atom : Type :=
| Lit (c : ascii)              (* a literal character *)
| NoneOf (cs : list ascii).    (* a negated class *)

Definition alternative : Type := list atom.
Definition pattern : Type := list alternative.

Definition atom_matches (a : atom) (c : ascii) : bool :=
  match a with
  | Lit d => Ascii.eqb c d
  | NoneOf cs => negb (existsb (Ascii.eqb c) cs)
  end.

(** Matching one alternative at the start of [s]: the matched text and
    what follows it. *)
Fixpoint match_alt (p : alternative) (s : string) : option (string * string) :=
  match p with
  | [] => Some (EmptyString, s)
  | a :: p' =>
      match s with
      | EmptyString => None
      | String c s' =>
          if atom_matches a c then
            match match_alt p' s' with
            | Some (m, rest) => Some (String c m, rest)
            | None => None
            end
          else None
      end
  end.

(** The first alternative that matches at the start of [s]. *)
Fixpoint match_here (r : pattern) (s : string) : option (string * string) :=
  match r with
  | [] => None
  | p :: r' =>
      match match_alt p s with
      | Some res => Some res
      | None => match_here r' s
      end
  end.

(** The alternative that matches exactly the text [s]. *)
Fixpoint literal (s : string) : alternative :=
  match s with
  | EmptyString => []
  | String c s' => Lit c :: literal s'
  end.

(** The characters between the brackets of a class. *)
Definition chars (s : string) : list ascii := list_ascii_of_string s.

(** The scan of [String.prototype.replace] with a global pattern and a
    replacer function.  [skip] counts the characters in front of the scan
    that belong to the match just replaced.  Text outside the matches is
    copied, each match is replaced by what the function returns for it, and
    the scan resumes after the match, one character further on when the
    match is empty. *)
Fixpoint replace_scan (r : pattern) (f : string -> string)
    (skip : nat) (s : string) : string :=
  match s with
  | EmptyString =>
      match skip with
      | O => match match_here r EmptyString with
             | Some (m, _) => f m
             | None => EmptyString
             end
      | S _ => EmptyString
      end
  | String c s' =>
      match skip with
      | S k => replace_scan r f k s'
      | O =>
          match match_here r s with
          | Some (m, _) =>
              f m ++ match String.length m with
                     | O => String c (replace_scan r f O s')
                     | S k => replace_scan r f k s'
                     end
          | None => String c (replace_scan r f O s')
          end
      end
  end.

(** [s.replace(r, f)] *)
Definition replace (r : pattern) (f : string -> string) (s : string) : string :=
  replace_scan r f O s.

(** No alternative of [r] is empty, and none of them can go on with the
    character [x] once it has started: a match never runs over a place
    that [x] follows. *)
Definition boundary (r : pattern) (x : ascii) : bool :=
  forallb (fun p =>
    match p with
    | [] => false
    | _ :: p' => forallb (fun a => negb (atom_matches a x)) p'
    end) r.

End RegExp.

(** ** Values and content items *)

(** A JavaScript value as far as strict equality can tell values apart:
    objects and arrays are compared by reference. *)
Inductive jsval : Type :=
| JUndefined
| JNull
| JBool (b : bool)
| JNumber (n : Z)
| JString (s : string)
| JObject (ref : nat).

(** [a !== true]. *)
Definition strict_neq_true (a : jsval) : bool :=
  match a with
  | JBool true => false
  | _ => true
  end.

(** A content item as the site generator hands it to the configuration:
    the path of its source file, its URL on the site, and the data of its
    front matter.  [data] lists the keys that are present. *)
Record item : Type := mkItem {
  inputPath : string;
  url : string;
  data : list (string * jsval)
}.

(** Property access [object.key]: [undefined] when the key is absent. *)
Fixpoint property (fields : list (string * jsval)) (key : string) : jsval :=
  match fields with
  | [] => JUndefined
  | (k, v) :: fields' => if String.eqb k key then v else property fields' key
  end.

(** [article.data.draft]. *)
Definition draft (article : item) : jsval := property (data article) "draft".

Definition jsval_eq_dec (a b : jsval) : {a = b} + {a <> b}.
Proof.
  decide equality;
    auto using Bool.bool_dec, Z.eq_dec, string_dec, Nat.eq_dec.
Defined.

Definition item_eq_dec (a b : item) : {a = b} + {a <> b}.
Proof.
  decide equality; auto using string_dec.
  apply list_eq_dec. decide equality; auto using jsval_eq_dec, string_dec.
Defined.

(** The record loaded from [src/data/global.yml]. *)
Record Global : Type := mkGlobal {
  domain : string
}.

(** ** Absolute links *)

Module Absolute.
Import JSString RegExp.

(** The pattern of the filter, with the flag [g].  Its four alternatives
    are, in this order and with Q for the double quote:
    [src=Q[^(https://)]], [src=Q/], [href=Q[^(https://)]] and [href=Q/].
    The class excludes the characters between its brackets one by one:
    the two parentheses, [h], [t], [p], [s], the colon and the slash. *)
Definition reg : pattern :=
  [ (literal ("src=" ++ quote) ++ [NoneOf (chars "(https://)")])%list;
    (literal ("src=" ++ quote) ++ [Lit "/"%char])%list;
    (literal ("href=" ++ quote) ++ [NoneOf (chars "(https://)")])%list;
    (literal ("href=" ++ quote) ++ [Lit "/"%char])%list ].

(** The replacer function of the filter. *)
Definition replacer (prefix : string) (match_ : string) : string :=
  if String.eqb match_ ("src=" ++ quote ++ "/")
     || String.eqb match_ ("href=" ++ quote ++ "/")
  then
    let match_ := slice match_ 0 (-1) in
    match_ ++ prefix
  else
    slice match_ 0 (-1) ++ prefix ++ slice_from match_ (-1).

(** [config.addFilter('absolute', (content, article) => ...)] *)
Definition absolute (global : Global) (content : string) (article : item) : string :=
  let prefix := domain global ++ url article in
  replace reg (replacer prefix) content.

(** The text of an attribute in the content: name, equals sign, and the
    value between double quotes. *)
Definition attribute (name value : string) : string :=
  name ++ "=" ++ quote ++ value ++ quote.

End Absolute.

(** ** Exceptions *)

(** What a call can throw: the two built-in errors the modelled code can
    raise itself, and a failure raised inside a third-party package. *)
Inductive exn : Type :=
| RangeError
| TypeError
| Failure (message : string).

(** ** ECMAScript dates *)

Module JSDate.
Local Open Scope Z_scope.

(** A [Date] holds a time value, milliseconds since the epoch in UTC, or
    [NaN] for an invalid date. *)
Definition Date : Type := option Z.

Definition msPerDay : Z := 86400000.
Definition msPerHour : Z := 3600000.
Definition msPerMinute : Z := 60000.
Definition msPerSecond : Z := 1000.

Definition Day (t : Z) : Z := t / msPerDay.
Definition TimeWithinDay (t : Z) : Z := t mod msPerDay.

Definition DaysInYear (y : Z) : Z :=
  if negb (y mod 4 =? 0) then 365
  else if negb (y mod 100 =? 0) then 366
  else if negb (y mod 400 =? 0) then 365
  else 366.

Definition DayFromYear (y : Z) : Z :=
  365 * (y - 1970) + (y - 1969) / 4 - (y - 1901) / 100 + (y - 1601) / 400.

Definition TimeFromYear (y : Z) : Z := msPerDay * DayFromYear y.

(** The largest [y] with [TimeFromYear y <= t], searched downwards. *)
Fixpoint year_search (fuel : nat) (y t : Z) : Z :=
  match fuel with
  | O => y
  | S fuel' => if TimeFromYear y <=? t then y else year_search fuel' (y - 1) t
  end.

(** The search starts just above the year that the mean length of a year
    in the 400-year cycle predicts, and three steps are always enough:
    see [YearFromTime_spec]. *)
Definition YearFromTime (t : Z) : Z :=
  year_search 3 (1970 + (400 * Day t) / 146097 + 1) t.

Definition InLeapYear (t : Z) : Z :=
  if DaysInYear (YearFromTime t) =? 365 then 0 else 1.

Definition DayWithinYear (t : Z) : Z := Day t - DayFromYear (YearFromTime t).

Definition MonthFromTime (t : Z) : Z :=
  let d := DayWithinYear t in
  let leap := InLeapYear t in
  if d <? 31 then 0
  else if d <? 59 + leap then 1
  else if d <? 90 + leap then 2
  else if d <? 120 + leap then 3
  else if d <? 151 + leap then 4
  else if d <? 181 + leap then 5
  else if d <? 212 + leap then 6
  else if d <? 243 + leap then 7
  else if d <? 273 + leap then 8
  else if d <? 304 + leap then 9
  else if d <? 334 + leap then 10
  else 11.

Definition DateFromTime (t : Z) : Z :=
  let d := DayWithinYear t in
  let leap := InLeapYear t in
  match MonthFromTime t with
  | 0 => d + 1
  | 1 => d - 30
  | 2 => d - 58 - leap
  | 3 => d - 89 - leap
  | 4 => d - 119 - leap
  | 5 => d - 150 - leap
  | 6 => d - 180 - leap
  | 7 => d - 211 - leap
  | 8 => d - 242 - leap
  | 9 => d - 272 - leap
  | 10 => d - 303 - leap
  | _ => d - 333 - leap
  end.

Definition HourFromTime (t : Z) : Z := (t / msPerHour) mod 24.
Definition MinFromTime (t : Z) : Z := (t / msPerMinute) mod 60.
Definition SecFromTime (t : Z) : Z := (t / msPerSecond) mod 60.
Definition msFromTime (t : Z) : Z := t mod msPerSecond.

(** Decimal digits, zero-padded on the left to [width] places. *)
Definition digit (n : Z) : ascii := ascii_of_nat (48 + Z.to_nat (n mod 10)).

Fixpoint padded (width : nat) (n : Z) : string :=
  match width with
  | O => EmptyString
  | S w => (padded w (n / 10) ++ String (digit n) EmptyString)%string
  end.

(** The year of the ISO format: four digits from 0 to 9999, otherwise a
    sign and six digits. *)
Definition iso_year (y : Z) : string :=
  if (0 <=? y) && (y <=? 9999) then padded 4 y
  else ((if (y <? 0)%Z then "-" else "+") ++ padded 6 (Z.abs y))%string.

Definition iso_date (t : Z) : string :=
  (iso_year (YearFromTime t) ++ "-" ++ padded 2 (MonthFromTime t + 1)
     ++ "-" ++ padded 2 (DateFromTime t))%string.

Definition iso_time (t : Z) : string :=
  (padded 2 (HourFromTime t) ++ ":" ++ padded 2 (MinFromTime t) ++ ":"
     ++ padded 2 (SecFromTime t) ++ "." ++ padded 3 (msFromTime t) ++ "Z")%string.

(** [Date.prototype.toISOString]: a [RangeError] on an invalid date. *)
Definition toISOString (value : Date) : exn + string :=
  match value with
  | None => inl RangeError
  | Some t => inr (iso_date t ++ "T" ++ iso_time t)%string
  end.

(** [a < b] on numbers, false as soon as one of them is [NaN]. *)
Definition number_lt (a b : option Z) : bool :=
  match a, b with
  | Some x, Some y => x <? y
  | _, _ => false
  end.

(** The options object of [Intl.DateTimeFormat], keys in source order. *)
Definition DateTimeFormatOptions : Type := list (string * string).

Section Host.

(** The offset of local time from UTC at a given time value, and the
    formatting of [Intl], both of the host. *)
Variable LocalTZA : Z -> Z.
Variable toLocaleString : Date -> string -> DateTimeFormatOptions -> string.

Definition LocalTime (t : Z) : Z := t + LocalTZA t.

(** [Date.prototype.getFullYear]: the year in local time, or [NaN]. *)
Definition getFullYear (value : Date) : option Z :=
  match value with
  | None => None
  | Some t => Some (YearFromTime (LocalTime t))
  end.

(** [config.addFilter('dateLong', ...)] *)
Definition dateLong (value : Date) : string :=
  toLocaleString value "en" [("dateStyle", "long")]%string.

(** [config.addFilter('dateShort', ...)]; [now] is the time value that
    [new Date()] reads from the clock. *)
Definition dateShort (now : Z) (value : Date) : string :=
  let articleYear := getFullYear value in
  let currentYear := getFullYear (Some now) in
  let dateFormat :=
    if number_lt articleYear currentYear
    then [("dateStyle", "long")]%string
    else [("month", "long"); ("day", "numeric")]%string in
  toLocaleString value "en" dateFormat.

End Host.

(** [config.addFilter('dateISO', ...)]: the text of [toISOString] in front
    of the first [T]. *)
Definition dateISO (value : Date) : exn + string :=
  match toISOString value with
  | inl e => inl e
  | inr iso => inr (hd EmptyString (JSString.split "T" iso))
  end.

(** The time values of 5 March 2024 in UTC. *)
Definition on_2024_03_05 (t : Z) : Prop :=
  1709596800000 <= t < 1709683200000.

End JSDate.

(** ** Asynchronous computations

    An [async] function runs against the state of the outside world (the
    file system, the DOM objects on the heap) and either throws or returns
    a value and the world it leaves.  [await e] is [bind]: the
    continuation starts in the world that [e] left when it settled. *)

Module Promise.

Definition Async (World A : Type) : Type := World -> exn + (A * World).

Definition ret {World A : Type} (a : A) : Async World A :=
  fun w => inr (a, w).

Definition throw {World A : Type} (e : exn) : Async World A :=
  fun _ => inl e.

Definition bind {World A B : Type}
    (m : Async World A) (k : A -> Async World B) : Async World B :=
  fun w =>
    match m w with
    | inl e => inl e
    | inr (a, w') => k a w'
    end.

(** [for (const x of xs) { await body(x); }] *)
Fixpoint for_of {World A : Type}
    (xs : list A) (body : A -> Async World unit) : Async World unit :=
  match xs with
  | [] => ret tt
  | x :: xs' => bind (body x) (fun _ => for_of xs' body)
  end.

Module Notations.
Notation "x <- m ;; k" := (bind m (fun x => k))
  (at level 61, m at next level, right associativity).
Notation "m ;; k" := (bind m (fun _ => k))
  (at level 61, right associativity).
End Notations.

End Promise.

(** ** Collections *)

Section Collections.

(** Whether a path matches one glob, as the glob library decides it. *)
Variable isMatch : string -> string -> bool.

(** The collection API of the site generator: all items, sorted. *)
Record collectionApi : Type := mkApi {
  getAllSorted : list item
}.

(** [collectionApi.getFilteredByGlob(globs)]: the items whose input path
    matches one of the globs, in the order of [getAllSorted]; a single
    glob is passed as a list of one. *)
Definition getFilteredByGlob (api : collectionApi) (globs : list string) : list item :=
  filter (fun entry => existsb (isMatch (inputPath entry)) globs) (getAllSorted api).

Definition collections_articles : string := "src/articles/*/index.md".
Definition collections_pages : string := "src/pages/!(404)/index.njk".

(** [config.addCollection('articles', ...)] *)
Definition articles (api : collectionApi) : list item :=
  filter (fun article => strict_neq_true (draft article))
    (getFilteredByGlob api [collections_articles]).

(** [config.addCollection('sitemap', ...)] *)
Definition sitemap (api : collectionApi) : list item :=
  filter (fun article => strict_neq_true (draft article))
    (getFilteredByGlob api [collections_articles; collections_pages]).

End Collections.

(** ** Markdown filters *)

Section Markdown.

(** The renderer of [markdown-it] and the stripper of [remove-markdown]. *)
Variable render : string -> string.
Variable renderInline : string -> string.
Variable removeMarkdown : string -> string.

(** [config.addFilter('markdown', ...)] *)
Definition markdown (value : string) : string := render value.

(** [config.addFilter('markdownInline', ...)] *)
Definition markdownInline (value : string) : string := renderInline value.

(** [config.addFilter('markdownRemove', ...)] *)
Definition markdownRemove (value : string) : string := removeMarkdown value.

End Markdown.

(** ** HTML and XML transforms

    A transform receives the content and the output path; the generator
    passes [false] for a page that is not written, which is [None] here.
    The test [path && path.endsWith(ext)] is false for [None] and for the
    empty string alike. *)

Definition path_endsWith (path : option string) (ext : string) : bool :=
  match path with
  | Some p => JSString.endsWith p ext
  | None => false
  end.

(** The options object handed to [html-minifier]. *)
Record MinifyOptions : Type := mkMinifyOptions {
  collapseBooleanAttributes : bool;
  collapseWhitespace : bool;
  decodeEntities : bool;
  includeAutoGeneratedTags : bool;
  removeComments : bool
}.

Section Minify.

(** [htmlMin.minify] and [prettyData.pd.xmlmin]. *)
Variable htmlMin_minify : string -> MinifyOptions -> exn + string.
Variable pd_xmlmin : string -> exn + string.

(** [config.addTransform('html-minify', ...)] *)
Definition html_minify (content : string) (path : option string) : exn + string :=
  if path_endsWith path ".html" then
    htmlMin_minify content
      {| collapseBooleanAttributes := true;
         collapseWhitespace := true;
         decodeEntities := true;
         includeAutoGeneratedTags := false;
         removeComments := true |}
  else inr content.

(** [config.addTransform('xmlMin', ...)] *)
Definition xmlMin (content : string) (path : option string) : exn + string :=
  if path_endsWith path ".xml" then pd_xmlmin content
  else inr content.

End Minify.

Section HtmlTransform.
Import Promise Promise.Notations.

Variable World : Type.

(** A parsed document: a reference to the DOM tree that lives in the
    world and that the passes mutate in place. *)
Variable Window : Type.
Variable dom_parseHTML : string -> Async World Window.
Variable document_toString : Window -> Async World string.

(** A pass takes the window, the content and the path. *)
Definition transform : Type := Window -> string -> string -> Async World unit.

(** The five passes of [src/transforms]. *)
Variables anchors demos figure images prism : transform.

Definition htmlTransforms : list transform :=
  [anchors; demos; figure; images; prism].

(** [config.addTransform('html-transform', async (content, path) => ...)] *)
Definition html_transform (content : string) (path : option string) : Async World string :=
  match path with
  | Some p =>
      if JSString.endsWith p ".html" then
        window <- dom_parseHTML content ;;
        for_of htmlTransforms (fun transform => transform window content p) ;;
        document_toString window
      else ret content
  | None => ret content
  end.

End HtmlTransform.

(** ** Style sheets and scripts *)

Record ProcessOptions : Type := mkProcessOptions {
  from : string
}.

Record ProcessResult : Type := mkProcessResult {
  css : string
}.

Record BuildOptions : Type := mkBuildOptions {
  target : string;
  entryPoints : list string;
  minify : bool;
  bundle : bool;
  write : bool
}.

Record OutputFile : Type := mkOutputFile {
  text : string
}.

Record BuildResult : Type := mkBuildResult {
  outputFiles : list OutputFile
}.

Section Assets.
Import Promise Promise.Notations.

Variable World : Type.

(** PostCSS: [postcss(plugins).process(content, options)]. *)
Variable plugin : Type.
Variables postcssImport postcssMediaMinmax autoprefixer postcssCsso : plugin.
Variable postcss_process :
  list plugin -> string -> ProcessOptions -> Async World ProcessResult.

(** [esbuild.build(options)]. *)
Variable esbuild_build : BuildOptions -> Async World BuildResult.

Definition styles : list string :=
  [ "./src/styles/index.css";
    "./src/styles/light.css";
    "./src/styles/dark.css" ].

(** The render function that the compile step of a style sheet returns. *)
Definition css_render (content path : string) : Async World string :=
  output <- postcss_process
              [postcssImport; postcssMediaMinmax; autoprefixer; postcssCsso]
              content {| from := path |} ;;
  ret (css output).

(** [compile] of [config.addExtension('css', ...)]: [None] is the
    [undefined] of the bare [return]. *)
Definition css_compile (content path : string)
    : Async World (option (Async World string)) :=
  if negb (JSString.includes styles path) then ret None
  else ret (Some (css_render content path)).

(** The render function that the compile step of a script returns;
    [outputFiles[0].text] throws when there is no first file. *)
Definition js_render (path : string) : Async World string :=
  output <- esbuild_build
              {| target := "es2020";
                 entryPoints := [path];
                 minify := true;
                 bundle := true;
                 write := false |} ;;
  match outputFiles output with
  | file :: _ => ret (text file)
  | [] => throw TypeError
  end.

(** [compile] of [config.addExtension('js', ...)]. *)
Definition js_compile (content path : string)
    : Async World (option (Async World string)) :=
  if negb (String.eqb path "./src/scripts/index.js") then ret None
  else ret (Some (js_render path)).

End Assets.

(** ** A small host

    Concrete stand-ins for the packages, used to run the callbacks on
    examples. *)

Module Sample.
Import Promise.

Definition global : Global := {| domain := "https://example.com" |}.

Definition post : item :=
  {| inputPath := "./src/articles/a/index.md";
     url := "/posts/a/";
     data := [("title", JString "A")] |}.

Definition hidden : item :=
  {| inputPath := "./src/articles/b/index.md";
     url := "/posts/b/";
     data := [("title", JString "B"); ("draft", JBool true)] |}.

Definition about : item :=
  {| inputPath := "./src/pages/about/index.njk";
     url := "/about/";
     data := [("draft", JBool false)] |}.

Definition api : collectionApi := {| getAllSorted := [post; hidden; about] |}.

(** A matcher that knows the two globs of the configuration only. *)
Definition isMatch (path glob : string) : bool :=
  (String.eqb glob collections_articles && prefix "./src/articles/" path)
  || (String.eqb glob collections_pages && prefix "./src/pages/" path).

Definition LocalTZA (t : Z) : Z := 0%Z.

Definition toLocaleString
    (value : JSDate.Date) (locale : string) (options : JSDate.DateTimeFormatOptions)
    : string :=
  String.concat "," (map fst options).

Definition minifier (content : string) (options : MinifyOptions) : exn + string :=
  inr ("min:" ++ content).

(** The world is the text of the one document; a pass appends its mark. *)
Definition parseHTML (content : string) : Async string unit :=
  fun _ => inr (tt, content).

Definition toString (window : unit) : Async string string :=
  fun w => inr (w, w).

Definition pass (mark : string) : transform string unit :=
  fun _ _ _ w => inr (tt, w ++ "[" ++ mark ++ "]").

Definition process (plugins : list string) (content : string)
    (options : ProcessOptions) : Async unit ProcessResult :=
  fun w => inr ({| css := String.concat "+" plugins ++ ":" ++ content |}, w).

Definition build (options : BuildOptions) : Async unit BuildResult :=
  fun w =>
    inr ({| outputFiles :=
              map (fun entry => {| text := "bundle:" ++ entry |}) (entryPoints options) |},
         w).

End Sample.

(** ** The style sheet filter *)

Section CssFilter.
Import Promise Promise.Notations.

Variable World : Type.
Variable plugin : Type.
Variables postcssImport postcssMediaMinmax autoprefixer postcssCsso : plugin.
Variable postcss_process :
  list plugin -> string -> ProcessOptions -> Async World ProcessResult.

(** What [process] does when it is handed [undefined] for the content. *)
Variable postcss_process_undefined :
  list plugin -> ProcessOptions -> Async World ProcessResult.

(** [fs.readFile(path, encoding, callback)]: the content, or the error
    that the callback receives together with an [undefined] content, and
    the world after the attempt. *)
Variable fs_readFile : string -> string -> World -> (exn + string) * World.

(** [config.addNunjucksAsyncFilter('css', (path, callback) => ...)].
    The result is the pair of arguments of the call of [callback].  The
    inner callback does not look at [error]; it hands [content] to PostCSS
    as it is.  Nothing catches a rejection of the promise of [process]:
    the computation throws then, and [callback] is not called at all. *)
Definition css_filter (path : string) : Async World (option exn * string) :=
  fun w =>
    let chain := [postcssImport; postcssMediaMinmax; autoprefixer; postcssCsso] in
    let '(read, w') := fs_readFile path "utf8" w in
    let processing :=
      match read with
      | inr content => postcss_process chain content {| from := path |}
      | inl error => postcss_process_undefined chain {| from := path |}
      end in
    (output <- processing ;; ret (None, css output)) w'.

End CssFilter.

(** ** The transforms together *)

Section Transforms.
Import Promise Promise.Notations.

Variable World : Type.
Variable Window : Type.
Variable htmlMin_minify : string -> MinifyOptions -> exn + string.
Variable pd_xmlmin : string -> exn + string.
Variable dom_parseHTML : string -> Async World Window.
Variable document_toString : Window -> Async World string.
Variables anchors demos figure images prism : transform World Window.

(** A synchronous callback seen as an asynchronous one. *)
Definition settle {A : Type} (r : exn + A) : Async World A :=
  fun w => match r with
           | inl e => inl e
           | inr a => inr (a, w)
           end.

(** The transforms, in the order of the calls of [config.addTransform]. *)
Definition transforms : list (string * (string -> option string -> Async World string)) :=
  [ ("html-minify", fun content path => settle (html_minify htmlMin_minify content path));
    ("html-transform",
       html_transform World Window dom_parseHTML document_toString
         anchors demos figure images prism);
    ("xmlMin", fun content path => settle (xmlMin pd_xmlmin content path)) ].

(** The generator runs the transforms of a page in the order of their
    registration, each on the content that the one before it returned. *)
Fixpoint run_transforms
    (ts : list (string * (string -> option string -> Async World string)))
    (content : string) (path : option string) : Async World string :=
  match ts with
  | [] => ret content
  | (_, callback) :: ts' =>
      content' <- callback content path ;;
      run_transforms ts' content' path
  end.

End Transforms.

(** ** The calendar of ECMAScript *)

Module Calendar.
Local Open Scope Z_scope.

(** The days of the year in front of a month, counted from 0, as in the
    table of [MonthFromTime]. *)
Definition month_start (leap month : Z) : Z :=
  match month with
  | 0 => 0
  | 1 => 31
  | 2 => 59 + leap
  | 3 => 90 + leap
  | 4 => 120 + leap
  | 5 => 151 + leap
  | 6 => 181 + leap
  | 7 => 212 + leap
  | 8 => 243 + leap
  | 9 => 273 + leap
  | 10 => 304 + leap
  | _ => 334 + leap
  end.

(** The number of days of a month. *)
Definition month_length (leap month : Z) : Z :=
  match month with
  | 1 => 28 + leap
  | 3 | 5 | 8 | 10 => 30
  | _ => 31
  end.

(** The time values a [Date] can hold. *)
Definition in_range (t : Z) : Prop := -8640000000000000 <= t <= 8640000000000000.

End Calendar.

(** ** More of the small host *)

Module Host.
Import Promise.

(** An item without a draft key in its front matter. *)
Definition note : item :=
  {| inputPath := "./src/articles/n/index.md";
     url := "/posts/n/";
     data := [("title", JString "N"); ("date", JNumber 1709596800000)] |}.

(** The items are listed by their URL. *)
Definition by_url (a b : item) : Prop := String.ltb (url a) (url b) = true.

Definition api : collectionApi :=
  {| getAllSorted := [Sample.about; Sample.post; Sample.hidden; note] |}.

(** A file system with one style sheet. *)
Definition readFile (path encoding : string) (w : unit) : (exn + string) * unit :=
  if String.eqb path "./src/styles/print.css" then (inr "a{}", w)
  else (inl (Failure "ENOENT"), w).

Definition process_undefined (plugins : list string) (options : ProcessOptions)
    : Async unit ProcessResult :=
  fun _ => inl (Failure "PostCSS received undefined instead of CSS string").

(** Two hosts away from Greenwich: local time one hour ahead of UTC, and
    local time five hours behind. *)
Definition one_hour_east (t : Z) : Z := 3600000%Z.

Definition five_hours_west (t : Z) : Z := (-18000000)%Z.

(** A pass that throws. *)
Definition broken : transform string unit :=
  fun _ _ _ _ => inl (Failure "figure").

End Host.

(** * Facts about strings *)

Section StringFacts.
Import JSString.

Lemma append_nil_r (s : string) : s ++ EmptyString = s.
Proof. induction s as [|c s IH]; simpl; [reflexivity | now rewrite IH]. Qed.

Lemma append_assoc (s t u : string) : (s ++ t) ++ u = s ++ t ++ u.
Proof. induction s as [|c s IH]; simpl; [reflexivity | now rewrite IH]. Qed.

Lemma append_length (s t : string) :
  String.length (s ++ t) = String.length s + String.length t.
Proof. induction s as [|c s IH]; simpl; [reflexivity | now rewrite IH]. Qed.

Lemma substring_all (s : string) : substring 0 (String.length s) s = s.
Proof. induction s as [|c s IH]; simpl; [reflexivity | now rewrite IH]. Qed.

Lemma substring_skip (s t : string) (n : nat) :
  substring (String.length s) n (s ++ t) = substring 0 n t.
Proof. induction s as [|c s IH]; simpl; [reflexivity | exact IH]. Qed.

Lemma substring_drop (s : string) :
  forall k n, k + n = String.length s ->
    substring 0 k s ++ substring k n s = s.
Proof.
  induction s as [|c s IH]; intros k n H; simpl in H.
  - destruct k; destruct n; simpl; try reflexivity; lia.
  - destruct k as [|k]; simpl.
    + destruct n as [|n]; [lia|]. f_equal.
      injection H as H. subst n. apply substring_all.
    + f_equal. apply IH. lia.
Qed.

(** [endsWith] holds exactly of the strings that are something followed
    by the suffix. *)
Lemma endsWith_spec (s suffix : string) :
  endsWith s suffix = true <-> exists stem, s = stem ++ suffix.
Proof.
  unfold endsWith. split.
  - destruct (Nat.ltb_spec (String.length s) (String.length suffix)) as [Hlt|Hge];
      [discriminate|].
    intros H. apply String.eqb_eq in H.
    exists (substring 0 (String.length s - String.length suffix) s).
    pose proof (substring_drop s (String.length s - String.length suffix)
                  (String.length suffix)) as E.
    rewrite H in E. symmetry. apply E. lia.
  - intros [stem ->]. rewrite append_length.
    destruct (Nat.ltb_spec (String.length stem + String.length suffix)
                (String.length suffix)) as [Hlt|Hge]; [lia|].
    replace (String.length stem + String.length suffix - String.length suffix)
      with (String.length stem) by lia.
    rewrite substring_skip, substring_all. apply String.eqb_refl.
Qed.

(** A string is cut in one way only at the first occurrence of a
    character. *)
Lemma first_occurrence_unique (c : ascii) (u : string) :
  forall u' t t',
    contains c u = false -> contains c u' = false ->
    u ++ String c t = u' ++ String c t' -> u = u' /\ t = t'.
Proof.
  induction u as [|d u IH]; intros [|d' u'] t t' Hu Hu' E; simpl in *.
  - inversion E. auto.
  - inversion E; subst. rewrite Ascii.eqb_refl in Hu'. discriminate.
  - inversion E; subst. rewrite Ascii.eqb_refl in Hu. discriminate.
  - inversion E; subst.
    apply orb_false_iff in Hu as [_ Hu]. apply orb_false_iff in Hu' as [_ Hu'].
    destruct (IH _ _ _ Hu Hu' H1) as [-> ->]. auto.
Qed.

Lemma contains_append (c : ascii) (u v : string) :
  contains c (u ++ v) = contains c u || contains c v.
Proof.
  induction u as [|d u IH]; simpl; [reflexivity|].
  now rewrite IH, orb_assoc.
Qed.

(** Two ways to cut the same text: one cut is inside the first part of
    the other. *)
Lemma append_cut (m : string) :
  forall rest before v,
    m ++ rest = before ++ v ->
    (exists b', before = m ++ b' /\ rest = b' ++ v) \/
    (exists v1 v2, v1 <> EmptyString /\ m = before ++ v1 /\ v = v1 ++ v2 /\ rest = v2).
Proof.
  induction m as [|c m IH]; intros rest before v E.
  - left. exists before. auto.
  - destruct before as [|d before].
    + right. exists (String c m), rest. simpl in *. repeat split; auto. discriminate.
    + simpl in E. injection E as -> E.
      destruct (IH _ _ _ E) as [(b' & -> & ->) | (v1 & v2 & Hv1 & -> & -> & ->)].
      * left. exists b'. auto.
      * right. exists v1, v2. auto.
Qed.

Lemma includes_spec (xs : list string) (x : string) :
  includes xs x = true <-> In x xs.
Proof.
  unfold includes. rewrite existsb_exists. split.
  - intros (y & Hy & E). apply String.eqb_eq in E. now subst.
  - intros H. exists x. split; [exact H | apply String.eqb_refl].
Qed.

End StringFacts.

(** * Facts about the pattern matcher *)

Section RegExpFacts.
Import JSString RegExp.

Lemma match_alt_split (p : alternative) :
  forall s m rest, match_alt p s = Some (m, rest) -> s = m ++ rest.
Proof.
  induction p as [|a p IH]; intros s m rest H; simpl in H.
  - inversion H. reflexivity.
  - destruct s as [|c s]; [discriminate|].
    destruct (atom_matches a c); [|discriminate].
    destruct (match_alt p s) as [[m' rest']|] eqn:E; [|discriminate].
    inversion H; subst. simpl. f_equal. apply IH. exact E.
Qed.

Lemma match_here_split (r : pattern) :
  forall s m rest, match_here r s = Some (m, rest) -> s = m ++ rest.
Proof.
  induction r as [|p r IH]; intros s m rest H; simpl in H; [discriminate|].
  destruct (match_alt p s) as [[m' rest']|] eqn:E.
  - inversion H; subst. eapply match_alt_split; eassumption.
  - apply IH. exact H.
Qed.

(** Once the characters of a match are skipped, the scan is at the text
    that follows the match. *)
Lemma replace_scan_skip (r : pattern) (f : string -> string) (m : string) :
  forall rest, replace_scan r f (String.length m) (m ++ rest) = replace_scan r f 0 rest.
Proof.
  induction m as [|c m IH]; intros rest; [reflexivity|].
  simpl. apply IH.
Qed.

Lemma replace_nil (r : pattern) (f : string -> string) :
  replace r f EmptyString =
  match match_here r EmptyString with
  | Some (m, _) => f m
  | None => EmptyString
  end.
Proof. reflexivity. Qed.

(** The scan at a character: copy it, or replace the match that starts
    there and go on behind the match. *)
Lemma replace_cons (r : pattern) (f : string -> string) (c : ascii) (s' : string) :
  replace r f (String c s') =
  match match_here r (String c s') with
  | Some (EmptyString, _) => f EmptyString ++ String c (replace r f s')
  | Some (String d m, rest) => f (String d m) ++ replace r f rest
  | None => String c (replace r f s')
  end.
Proof.
  unfold replace. cbn [replace_scan].
  destruct (match_here r (String c s')) as [[[|d m] rest]|] eqn:E;
    try reflexivity.
  apply match_here_split in E. simpl in E. injection E as _ E.
  cbn [String.length]. now rewrite E, replace_scan_skip.
Qed.

Lemma match_alt_extend (p : alternative) :
  forall s m rest t, match_alt p s = Some (m, rest) ->
    match_alt p (s ++ t) = Some (m, rest ++ t).
Proof.
  induction p as [|a p IH]; intros s m rest t H; simpl in H.
  - inversion H. reflexivity.
  - destruct s as [|c s]; [discriminate|]. simpl.
    destruct (atom_matches a c); [|discriminate].
    destruct (match_alt p s) as [[m' rest']|] eqn:E; [|discriminate].
    inversion H; subst. now rewrite (IH _ _ _ t E).
Qed.

Lemma match_alt_stays_none (p : alternative) (x : ascii) :
  forallb (fun a => negb (atom_matches a x)) (tl p) = true ->
  forall c s t, match_alt p (String c s) = None ->
    match_alt p (String c (s ++ String x t)) = None.
Proof.
  induction p as [|a p IH]; intros Hx c s t H; [discriminate|].
  cbn [match_alt] in *. cbn [tl] in Hx.
  destruct (atom_matches a c); [|reflexivity].
  destruct s as [|c' s].
  - destruct p as [|b p]; [discriminate|].
    cbn [forallb] in Hx. apply andb_true_iff in Hx as [Hb _].
    apply negb_true_iff in Hb. cbn [append match_alt]. now rewrite Hb.
  - assert (Hp : forallb (fun a => negb (atom_matches a x)) (tl p) = true).
    { destruct p as [|b p]; [reflexivity|]. cbn [forallb tl] in *.
      now apply andb_true_iff in Hx as [_ Hx]. }
    destruct (match_alt p (String c' s)) as [[m rest]|] eqn:E; [discriminate|].
    cbn [append]. now rewrite (IH Hp c' s t E).
Qed.

Lemma match_here_nil (r : pattern) (x : ascii) :
  boundary r x = true -> match_here r EmptyString = None.
Proof.
  induction r as [|p r IH]; simpl; [reflexivity|].
  intros H. apply andb_true_iff in H as [Hp Hr].
  destruct p as [|a p]; [discriminate|]. simpl. apply IH, Hr.
Qed.

Lemma match_here_boundary (r : pattern) (x : ascii) :
  boundary r x = true ->
  forall c s t,
    match_here r (String c s ++ String x t) =
    match match_here r (String c s) with
    | Some (m, rest) => Some (m, rest ++ String x t)
    | None => None
    end.
Proof.
  induction r as [|p r IH]; intros H c s t; [reflexivity|].
  apply andb_true_iff in H as [Hp Hr].
  cbn [match_here].
  destruct (match_alt p (String c s)) as [[m rest]|] eqn:E.
  - now rewrite (match_alt_extend _ _ _ _ (String x t) E).
  - change (String c s ++ String x t) with (String c (s ++ String x t)).
    rewrite (match_alt_stays_none p x); [apply IH, Hr | | exact E].
    destruct p as [|a p]; [discriminate | exact Hp].
Qed.

(** Replacing in a text that [x] cuts in two replaces in each part. *)
Lemma replace_boundary (r : pattern) (f : string -> string) (x : ascii) :
  boundary r x = true ->
  forall s t,
    replace r f (s ++ String x t) = replace r f s ++ replace r f (String x t).
Proof.
  intros H s.
  remember (String.length s) as n eqn:Hn.
  revert s Hn. induction n as [n IH] using lt_wf_ind. intros s Hn t.
  destruct s as [|c s].
  - rewrite replace_nil, (match_here_nil r x H). reflexivity.
  - change ((String c s ++ String x t)) with (String c (s ++ String x t)).
    rewrite (replace_cons r f c (s ++ String x t)), (replace_cons r f c s).
    change (String c (s ++ String x t)) with (String c s ++ String x t).
    rewrite (match_here_boundary r x H).
    destruct (match_here r (String c s)) as [[[|d m] rest]|] eqn:E.
    + rewrite append_assoc. simpl. do 2 f_equal.
      apply (IH (String.length s)); [subst n; simpl; lia | reflexivity].
    + rewrite append_assoc. f_equal.
      apply match_here_split in E. apply (f_equal String.length) in E.
      rewrite append_length in E. simpl in E.
      apply (IH (String.length rest)); [subst n; simpl; lia | reflexivity].
    + simpl. f_equal.
      apply (IH (String.length s)); [subst n; simpl; lia | reflexivity].
Qed.

Lemma match_alt_same_match (p : alternative) :
  forall s m rest rest',
    match_alt p s = Some (m, rest) -> match_alt p (m ++ rest') = Some (m, rest').
Proof.
  induction p as [|a p IH]; intros s m rest rest' H; simpl in H.
  - inversion H. reflexivity.
  - destruct s as [|c s]; [discriminate|].
    destruct (atom_matches a c) eqn:Ha; [|discriminate].
    destruct (match_alt p s) as [[m' r']|] eqn:E; [|discriminate].
    inversion H; subst. simpl. rewrite Ha. now rewrite (IH _ _ _ rest' E).
Qed.

Lemma match_alt_none_prefix (p : alternative) (s t : string) :
  match_alt p (s ++ t) = None -> match_alt p s = None.
Proof.
  intros H. destruct (match_alt p s) as [[m rest]|] eqn:E; [|reflexivity].
  rewrite (match_alt_extend _ _ _ _ t E) in H. discriminate.
Qed.

(** A match that ends inside the first part of a text is the match of
    that part alone. *)
Lemma match_here_prefix (r : pattern) :
  forall m b' t,
    match_here r ((m ++ b') ++ t) = Some (m, b' ++ t) ->
    match_here r (m ++ b') = Some (m, b').
Proof.
  induction r as [|p r IH]; intros m b' t H; simpl in *; [discriminate|].
  destruct (match_alt p ((m ++ b') ++ t)) as [[m' rest']|] eqn:E.
  - inversion H; subst. now rewrite (match_alt_same_match _ _ _ _ b' E).
  - rewrite (match_alt_none_prefix _ _ _ E). apply IH with t. exact H.
Qed.

Lemma match_here_none_prefix (r : pattern) (s t : string) :
  match_here r (s ++ t) = None -> match_here r s = None.
Proof.
  induction r as [|p r IH]; simpl; [reflexivity|].
  destruct (match_alt p (s ++ t)) as [[m rest]|] eqn:E; [discriminate|].
  intros H. rewrite (match_alt_none_prefix _ _ _ E). apply IH, H.
Qed.

(** One alternative made of a literal text and a last atom. *)
Lemma match_alt_literal (l : string) (a : atom) :
  forall s m rest,
    match_alt (literal l ++ [a])%list s = Some (m, rest) ->
    exists X, atom_matches a X = true /\
              m = l ++ String X EmptyString /\ s = l ++ String X rest.
Proof.
  induction l as [|c l IH]; intros s m rest H; simpl in H.
  - destruct s as [|X s]; [discriminate|].
    destruct (atom_matches a X) eqn:Ha; [|discriminate].
    inversion H; subst. exists X. auto.
  - destruct s as [|c' s]; [discriminate|].
    destruct (Ascii.eqb_spec c' c) as [->|]; [|discriminate].
    destruct (match_alt (literal l ++ [a])%list s) as [[m' rest']|] eqn:E; [|discriminate].
    inversion H; subst.
    destruct (IH _ _ _ E) as (X & Ha & -> & ->). exists X. auto.
Qed.

End RegExpFacts.

(** * The [absolute] filter *)

Section AbsoluteFacts.
Import JSString RegExp Absolute.

Lemma reg_boundary_s : boundary reg "s" = true.
Proof. reflexivity. Qed.

Lemma reg_boundary_h : boundary reg "h" = true.
Proof. reflexivity. Qed.

Lemma replace_none (f : string -> string) (c : ascii) (s : string) :
  match_here reg (String c s) = None ->
  replace reg f (String c s) = String c (replace reg f s).
Proof. intros H. now rewrite replace_cons, H. Qed.

(** Steps over the characters in front of the scan at which the pattern
    visibly fails. *)
Ltac scan := repeat (rewrite replace_none by reflexivity).

(** What a match of [reg] looks like: one of the two attribute names with
    its equals sign, the quote, and one more character, which is not the
    [h] that starts a scheme. *)
Lemma match_here_reg_shape (s m rest : string) :
  match_here reg s = Some (m, rest) ->
  exists a X,
    (a = "src=" \/ a = "href=") /\
    m = a ++ String dquote (String X EmptyString) /\
    s = a ++ String dquote (String X rest) /\
    X <> "h"%char.
Proof.
  unfold reg. cbn [match_here]. intros H.
  repeat match type of H with
    | match match_alt (literal (?l ++ quote) ++ [?a])%list s with _ => _ end = _ =>
        let E := fresh "E" in
        destruct (match_alt (literal (l ++ quote) ++ [a])%list s)
          as [[m' rest']|] eqn:E;
        [ inversion H; subst m' rest';
          destruct (match_alt_literal _ _ _ _ _ E) as (X & HX & Hm & Hs);
          exists l, X; repeat split; auto;
          intros ->; vm_compute in HX; discriminate | ]
    end.
  discriminate.
Qed.

(** What the replacer makes of a match: the prefix goes behind the quote,
    and a slash behind the quote is dropped. *)
Lemma replacer_shape (prefix a : string) (X : ascii) :
  a = "src=" \/ a = "href=" ->
  replacer prefix (a ++ String dquote (String X EmptyString)) =
  a ++ quote ++ prefix ++ (if Ascii.eqb X "/" then EmptyString else String X EmptyString).
Proof.
  intros [-> | ->]; unfold replacer; cbn;
    destruct (Ascii.eqb X "/"); cbn; rewrite ?append_nil_r; reflexivity.
Qed.

(** A text whose only double quote is its last character has no match. *)
Lemma replace_quote_last (f : string -> string) (u : string) :
  contains dquote u = false -> replace reg f (u ++ quote) = u ++ quote.
Proof.
  induction u as [|c u IH]; intros Hq.
  - reflexivity.
  - cbn [append]. rewrite replace_cons.
    destruct (match_here reg (String c (u ++ quote))) as [[m rest]|] eqn:E.
    + apply match_here_reg_shape in E as (a & X & Ha & _ & Hs & _).
      assert (Hqa : contains dquote a = false) by (destruct Ha as [-> | ->]; reflexivity).
      change (String c (u ++ quote)) with (String c u ++ String dquote EmptyString) in Hs.
      destruct (first_occurrence_unique dquote _ _ _ _ Hq Hqa Hs) as [_ Habs].
      discriminate.
    + cbn [contains] in Hq. apply orb_false_iff in Hq as [_ Hq].
      now rewrite (IH Hq).
Qed.

(** A value without a double quote is copied up to the quote that closes
    it; only that quote can be part of a match. *)
Lemma replace_unquoted (prefix value : string) :
  forall after, contains dquote value = false ->
    exists tail,
      replace reg (replacer prefix) (value ++ String dquote after) =
      value ++ String dquote tail.
Proof.
  induction value as [|c v IH]; intros after Hq.
  - cbn [append]. scan. eauto.
  - cbn [append].
    destruct (match_here reg (String c (v ++ String dquote after)))
      as [[m rest]|] eqn:E.
    + pose proof (match_here_reg_shape _ _ _ E) as (a & X & Ha & Hm & Hs & _).
      assert (Hqa : contains dquote a = false) by (destruct Ha as [-> | ->]; reflexivity).
      assert (Hcons : exists d m', m = String d m').
      { rewrite Hm. destruct Ha as [-> | ->]; cbn [append]; eauto. }
      destruct Hcons as (d & m' & Hdm).
      change (String c (v ++ String dquote after))
        with (String c v ++ String dquote after) in Hs.
      destruct (first_occurrence_unique dquote _ _ _ _ Hq Hqa Hs) as [Ev Eafter].
      exists (prefix
                ++ (if Ascii.eqb X "/" then EmptyString else String X EmptyString)
                ++ replace reg (replacer prefix) rest).
      rewrite replace_cons, E, Hdm, <- Hdm, Hm, (replacer_shape _ _ _ Ha).
      change (String c (v ++ String dquote ?t)) with (String c v ++ String dquote t).
      rewrite Ev. unfold quote.
      repeat (rewrite !append_assoc; cbn [append]). reflexivity.
    + cbn [contains] in Hq. apply orb_false_iff in Hq as [_ Hq].
      destruct (IH after Hq) as [tail Htail]. exists tail.
      now rewrite replace_cons, E, Htail.
Qed.

(** The text in front of an opening quote: whatever precedes the name,
    the name and the quote come out as they are, behind the rewriting of
    what precedes them, with the prefix in between when the name itself
    directly follows the quote of a [src] or [href]. *)
Lemma replace_before_quote (prefix N : string) :
  contains dquote N = false ->
  String.prefix "/" N = false ->
  forall before,
    exists head,
      (head = replace reg (replacer prefix) before \/
       head = replace reg (replacer prefix) before ++ prefix) /\
      replace reg (replacer prefix) (before ++ N ++ quote) = head ++ N ++ quote.
Proof.
  set (f := replacer prefix).
  intros HN Hslash before.
  remember (String.length before) as n eqn:Hn.
  revert before Hn. induction n as [n IH] using lt_wf_ind. intros before Hn.
  destruct before as [|c b].
  - exists EmptyString. split; [left; reflexivity|].
    cbn [append]. apply replace_quote_last, HN.
  - cbn [append].
    destruct (match_here reg (String c (b ++ N ++ quote))) as [[m rest]|] eqn:E.
    + pose proof (match_here_reg_shape _ _ _ E) as (a & X & Ha & Hm & Hs & _).
      assert (Hqa : contains dquote a = false) by (destruct Ha as [-> | ->]; reflexivity).
      assert (Hfm : f m = a ++ quote ++ prefix
                      ++ (if Ascii.eqb X "/" then EmptyString else String X EmptyString)).
      { rewrite Hm. apply replacer_shape, Ha. }
      assert (Hcons : exists d m', m = String d m').
      { rewrite Hm. destruct Ha as [-> | ->]; cbn [append]; eauto. }
      destruct Hcons as (d & m' & Hdm).
      assert (Estep : replace reg f (String c (b ++ N ++ quote))
                      = f m ++ replace reg f rest).
      { now rewrite replace_cons, E, Hdm. }
      rewrite Estep. clear Estep.
      pose proof (match_here_split _ _ _ _ E) as Hcut.
      change (String c (b ++ N ++ quote)) with (String c b ++ N ++ quote) in Hcut.
      symmetry in Hcut.
      destruct (append_cut _ _ _ _ Hcut)
        as [(b' & Hb & Hrest) | (v1 & v2 & Hv1 & Hmv & HW & Hrest)].
      * (* the match ends in front of the name *)
        assert (Hlen : String.length b' < n).
        { subst n. rewrite Hb, append_length, Hdm. simpl. lia. }
        destruct (IH _ Hlen b' eq_refl) as (head' & Hhead' & IHeq).
        assert (Ebefore : replace reg f (String c b) = f m ++ replace reg f b').
        { change (String c (b ++ N ++ quote)) with (String c b ++ N ++ quote) in E.
          rewrite Hb, Hrest in E. apply match_here_prefix in E.
          rewrite Hb, Hdm. cbn [append]. rewrite replace_cons.
          rewrite Hdm in E. cbn [append] in E. now rewrite E. }
        exists (f m ++ head'). split.
        -- rewrite Ebefore.
           destruct Hhead' as [-> | ->]; [left | right]; now rewrite ?append_assoc.
        -- rewrite Hrest, IHeq. now rewrite append_assoc.
      * (* the match runs into the name *)
        subst rest.
        assert (Hone : v1 = String X EmptyString /\ String c b = a ++ quote).
        { rewrite Hm in Hmv.
          assert (Hcut' : a ++ String dquote (String X EmptyString) = String c b ++ v1)
            by exact Hmv.
          destruct (append_cut _ _ _ _ Hcut')
            as [(b2 & Hb2 & Hq2) | (w1 & w2 & Hw1 & Haw & Hvw & Hqw)].
          - destruct b2 as [|q' [|x' b4]].
            + (* the quote would be in the name *)
              exfalso. cbn [append] in Hq2. subst v1.
              assert (HW' : N ++ String dquote EmptyString
                            = EmptyString ++ String dquote (String X v2)) by exact HW.
              destruct (first_occurrence_unique dquote N EmptyString _ _ HN eq_refl HW')
                as [_ Habs].
              discriminate.
            + cbn [append] in Hq2. injection Hq2 as <- Hq2. subst v1.
              split; [reflexivity | exact Hb2].
            + cbn [append] in Hq2. injection Hq2 as _ _ Hq2.
              destruct b4; destruct v1; try discriminate. now contradiction Hv1.
          - exfalso. subst v1 w2.
            assert (Hqw1 : contains dquote w1 = false).
            { rewrite Haw, contains_append in Hqa.
              now apply orb_false_iff in Hqa as [_ Hqa]. }
            assert (HW' : N ++ String dquote EmptyString
                          = w1 ++ String dquote (String X v2)).
            { unfold quote in HW. rewrite HW, append_assoc. reflexivity. }
            destruct (first_occurrence_unique dquote _ _ _ _ HN Hqw1 HW') as [_ Habs].
            discriminate. }
        destruct Hone as [-> Hbefore].
        assert (Ebefore : replace reg f (String c b) = String c b).
        { rewrite Hbefore. apply replace_quote_last, Hqa. }
        exists (String c b ++ prefix). split; [right; now rewrite Ebefore|].
        rewrite Hfm, Hbefore.
        destruct N as [|x N'].
        -- (* an empty name: the character behind the quote is a quote *)
           cbn [append] in HW. injection HW as HX Hv2. subst X v2.
           unfold quote. cbn [Ascii.eqb]. rewrite append_nil_r.
           repeat (rewrite !append_assoc; cbn [append]). reflexivity.
        -- cbn [append] in HW. injection HW as HX Hv2. subst X v2.
           cbn [contains] in HN. apply orb_false_iff in HN as [_ HN'].
           rewrite (replace_quote_last f N' HN').
           assert (Hx : Ascii.eqb x "/" = false).
           { apply Ascii.eqb_neq. intros ->. cbn [String.prefix] in Hslash.
             destruct (ascii_dec "/" "/") as [_|Hne]; [|now apply Hne].
             destruct N'; discriminate. }
           rewrite Hx. unfold quote.
           repeat (rewrite !append_assoc; cbn [append]). reflexivity.
    + assert (Estep : replace reg f (String c (b ++ N ++ quote))
                      = String c (replace reg f (b ++ N ++ quote))).
      { now rewrite replace_cons, E. }
      rewrite Estep. clear Estep.
      assert (Hlen : String.length b < n) by (subst n; simpl; lia).
      destruct (IH _ Hlen b eq_refl) as (head' & Hhead' & IHeq).
      assert (Ebefore : replace reg f (String c b) = String c (replace reg f b)).
      { change (String c (b ++ N ++ quote)) with (String c b ++ N ++ quote) in E.
        apply match_here_none_prefix in E. now rewrite replace_cons, E. }
      exists (String c head'). split.
      * rewrite Ebefore. destruct Hhead' as [-> | ->]; [left | right]; reflexivity.
      * now rewrite IHeq.
Qed.

Variable global : Global.
Variable article : item.

Let base : string := domain global ++ url article.

(** A root-relative [src] loses its slash and gets the domain and the
    URL of the article in front. *)
Lemma absolute_src_slash (before after : string) :
  absolute global (before ++ "src=" ++ quote ++ "/" ++ after) article =
  absolute global before article ++ "src=" ++ quote ++ base
    ++ absolute global after article.
Proof.
  unfold absolute. fold base. unfold quote. cbn [append].
  rewrite (replace_boundary reg _ "s" reg_boundary_s). apply f_equal.
  rewrite replace_cons.
  change (match_here reg (String "s" ?x))
    with (Some ("src=" ++ quote ++ "/", after)).
  reflexivity.
Qed.

(** The text [img.png] and the quote behind it are copied. *)
Lemma absolute_img_png (after : string) :
  absolute global ("img.png" ++ quote ++ after) article =
  "img.png" ++ quote ++ absolute global after article.
Proof.
  unfold absolute, quote. cbn [append]. scan. reflexivity.
Qed.

(** Nothing happens to the start of an attribute of the two names of
    the pattern whose value begins with the https scheme. *)
Lemma absolute_https (name before after : string) :
  name = "src" \/ name = "href" ->
  absolute global (before ++ name ++ "=" ++ quote ++ "https://" ++ after) article =
  absolute global before article ++ name ++ "=" ++ quote ++ "https://"
    ++ absolute global after article.
Proof.
  unfold absolute. fold base. unfold quote. intros [-> | ->]; cbn [append].
  - rewrite (replace_boundary reg _ "s" reg_boundary_s). apply f_equal.
    scan. reflexivity.
  - rewrite (replace_boundary reg _ "h" reg_boundary_h). apply f_equal.
    scan. reflexivity.
Qed.

(** A whole [src] or [href] whose value begins with the https scheme comes
    out as it went in, behind the rewriting of what precedes it. *)
Lemma absolute_https_attribute (name value before after : string) :
  name = "src" \/ name = "href" ->
  contains dquote value = false ->
  exists tail,
    absolute global (before ++ attribute name ("https://" ++ value) ++ after) article =
    absolute global before article ++ attribute name ("https://" ++ value) ++ tail.
Proof.
  intros Hname Hq. unfold attribute.
  destruct (replace_unquoted base value after Hq) as [tail Htail].
  exists tail.
  replace (before ++ (name ++ "=" ++ quote ++ ("https://" ++ value) ++ quote) ++ after)
    with (before ++ name ++ "=" ++ quote ++ "https://" ++ (value ++ String dquote after)).
  - rewrite (absolute_https name before _ Hname).
    unfold absolute at 2. fold base. rewrite Htail.
    unfold quote. now rewrite !append_assoc.
  - unfold quote. now rewrite !append_assoc.
Qed.

(** An attribute of any name whose value begins with the https scheme
    comes out as it went in.  In front of it stands the rewriting of what
    precedes it, followed by the base when the attribute directly follows
    the quote of a [src] or [href]. *)
Lemma absolute_https_any_attribute (name value before after : string) :
  contains dquote name = false ->
  String.prefix "/" name = false ->
  contains dquote value = false ->
  exists head tail,
    absolute global (before ++ attribute name ("https://" ++ value) ++ after) article =
    head ++ attribute name ("https://" ++ value) ++ tail /\
    (head = absolute global before article \/
     head = absolute global before article ++ base).
Proof.
  intros Hname Hslash Hq.
  assert (HN : contains dquote (name ++ "=") = false).
  { rewrite contains_append, Hname. reflexivity. }
  assert (HNslash : String.prefix "/" (name ++ "=") = false).
  { destruct name as [|x name']; [reflexivity|].
    cbn [String.prefix append] in *. destruct (ascii_dec "/" x); [|reflexivity].
    destruct name'; discriminate. }
  destruct (replace_before_quote base _ HN HNslash before) as (head & Hhead & Ehead).
  destruct (replace_unquoted base value after Hq) as [tail Etail].
  exists head, tail. split; [|exact Hhead].
  unfold absolute, attribute. fold base.
  replace (before ++ (name ++ "=" ++ quote ++ ("https://" ++ value) ++ quote) ++ after)
    with ((before ++ (name ++ "=") ++ quote)
            ++ String "h" ("ttps://" ++ value ++ String dquote after))
    by (unfold quote; repeat (rewrite !append_assoc; cbn [append]); reflexivity).
  rewrite (replace_boundary reg _ "h" reg_boundary_h), Ehead.
  cbn [append]. scan. rewrite Etail.
  unfold quote. repeat (rewrite !append_assoc; cbn [append]). reflexivity.
Qed.

End AbsoluteFacts.

(** C1, as the code has it: with the domain [https://example.com] and the
    article URL [/posts/a/], wherever the attribute [src] with the value
    [/img.png] occurs in the content, the filter writes the value
    [https://example.com/posts/a/img.png] in its place, the domain followed
    by the URL of the article and the path without its slash, and treats
    what is in front and what is behind as it would on their own; and an
    attribute whose value begins with [https://] comes out unchanged:
    for [src] and [href] right behind the rewriting of what precedes it,
    for any other name possibly with the base in between, which is the
    case when the attribute stands where the value of a [src] or [href]
    begins. *)
Theorem absolute_base_is_article_url (global : Global) (article : item) :
  domain global = "https://example.com" ->
  url article = "/posts/a/" ->
  forall before after : string,
    Absolute.absolute global
      (before ++ Absolute.attribute "src" "/img.png" ++ after) article =
    Absolute.absolute global before article
      ++ Absolute.attribute "src" "https://example.com/posts/a/img.png"
      ++ Absolute.absolute global after article
    /\
    (forall name value : string,
       name = "src" \/ name = "href" ->
       JSString.contains JSString.dquote value = false ->
       exists tail,
         Absolute.absolute global
           (before ++ Absolute.attribute name ("https://" ++ value) ++ after) article =
         Absolute.absolute global before article
           ++ Absolute.attribute name ("https://" ++ value) ++ tail)
    /\
    (forall name value : string,
       JSString.contains JSString.dquote name = false ->
       String.prefix "/" name = false ->
       JSString.contains JSString.dquote value = false ->
       exists head tail,
         Absolute.absolute global
           (before ++ Absolute.attribute name ("https://" ++ value) ++ after) article =
         head ++ Absolute.attribute name ("https://" ++ value) ++ tail /\
         (head = Absolute.absolute global before article \/
          head = Absolute.absolute global before article
                   ++ "https://example.com/posts/a/")).
Proof.
  intros Hdomain Hurl before after. split; [|split].
  - unfold Absolute.attribute.
    replace (before ++ ("src" ++ "=" ++ JSString.quote ++ "/img.png" ++ JSString.quote) ++ after)
      with (before ++ "src=" ++ JSString.quote ++ "/"
              ++ ("img.png" ++ JSString.quote ++ after))
      by (unfold JSString.quote; now rewrite !append_assoc).
    rewrite absolute_src_slash, absolute_img_png, Hdomain, Hurl.
    unfold JSString.quote. cbn [append]. reflexivity.
  - intros name value Hname Hvalue.
    now apply absolute_https_attribute.
  - intros name value Hname Hslash Hvalue.
    destruct (absolute_https_any_attribute global article name value before after
                Hname Hslash Hvalue) as (head & tail & E & Hhead).
    exists head, tail. split; [exact E|].
    rewrite Hdomain, Hurl in Hhead. exact Hhead.
Qed.

(** The filter on other values.  A relative path gets the base when its
    first character is outside the class of the pattern, and stays as it
    is when that character is one of [h], [t], [p], [s]; a fragment gets
    the base; a scheme-relative URL loses one slash and gets the base; an
    [http] URL stays as it is. *)
Lemma absolute_other_values :
  let run := fun value =>
    Absolute.absolute Sample.global (Absolute.attribute "src" value) Sample.post in
  run "images/a.png" = Absolute.attribute "src" "https://example.com/posts/a/images/a.png"
  /\ run "photo.png" = Absolute.attribute "src" "photo.png"
  /\ run "#top" = Absolute.attribute "src" "https://example.com/posts/a/#top"
  /\ run "//cdn.example/a.js"
       = Absolute.attribute "src" "https://example.com/posts/a//cdn.example/a.js"
  /\ run "http://example.org/" = Absolute.attribute "src" "http://example.org/".
Proof. repeat split; reflexivity. Qed.

(** C1 as written fails: the result for the attribute alone is not the
    value under the bare domain. *)
Lemma absolute_not_domain_only :
  Absolute.absolute Sample.global (Absolute.attribute "src" "/img.png") Sample.post
    = Absolute.attribute "src" "https://example.com/posts/a/img.png"
  /\ Absolute.absolute Sample.global (Absolute.attribute "src" "/img.png") Sample.post
    <> Absolute.attribute "src" "https://example.com/img.png".
Proof.
  split; [reflexivity|]. intros H. vm_compute in H. discriminate.
Qed.

Lemma absolute_base_is_article_url_witness :
  Absolute.absolute Sample.global
    ("<img " ++ Absolute.attribute "src" "/img.png" ++ ">") Sample.post =
  Absolute.absolute Sample.global "<img " Sample.post
    ++ Absolute.attribute "src" "https://example.com/posts/a/img.png"
    ++ Absolute.absolute Sample.global ">" Sample.post
  /\
  (exists tail,
     Absolute.absolute Sample.global
       ("<a " ++ Absolute.attribute "href" ("https://" ++ "rocq-prover.org/") ++ ">")
       Sample.post =
     Absolute.absolute Sample.global "<a " Sample.post
       ++ Absolute.attribute "href" ("https://" ++ "rocq-prover.org/") ++ tail)
  /\
  (exists head tail,
     Absolute.absolute Sample.global
       ("<video " ++ Absolute.attribute "poster" ("https://" ++ "rocq-prover.org/p.png")
          ++ ">") Sample.post =
     head ++ Absolute.attribute "poster" ("https://" ++ "rocq-prover.org/p.png") ++ tail /\
     (head = Absolute.absolute Sample.global "<video " Sample.post \/
      head = Absolute.absolute Sample.global "<video " Sample.post
               ++ "https://example.com/posts/a/")).
Proof.
  split; [|split].
  - apply (absolute_base_is_article_url Sample.global Sample.post
             eq_refl eq_refl "<img " ">").
  - destruct (absolute_base_is_article_url Sample.global Sample.post
                eq_refl eq_refl "<a " ">") as (_ & Hsame & _).
    apply Hsame.
    + right. reflexivity.
    + reflexivity.
  - destruct (absolute_base_is_article_url Sample.global Sample.post
                eq_refl eq_refl "<video " ">") as (_ & _ & Hany).
    apply Hany; reflexivity.
Defined.

(** * Collections *)

Section CollectionFacts.

Variable isMatch : string -> string -> bool.

Let count : list item -> item -> nat := count_occ item_eq_dec.

Lemma strict_neq_true_spec (a : jsval) :
  strict_neq_true a = false <-> a = JBool true.
Proof.
  destruct a as [| |[|]| | |]; simpl; split; intros H;
    try discriminate; reflexivity.
Qed.

(** A key that is absent reads as [undefined], which is published. *)
Lemma draft_absent_published (path address : string) :
  strict_neq_true (draft {| inputPath := path; url := address; data := [] |}) = true.
Proof. reflexivity. Qed.

Lemma count_filter (f : item -> bool) (l : list item) (x : item) :
  count (filter f l) x = if f x then count l x else 0.
Proof.
  unfold count. induction l as [|y l IH]; simpl.
  - now destruct (f x).
  - destruct (f y) eqn:Fy; simpl; destruct (item_eq_dec y x) as [->|Hne];
      rewrite IH; try rewrite Fy; destruct (f x); try reflexivity; congruence.
Qed.

Lemma count_articles (api : collectionApi) (entry : item) :
  count (articles isMatch api) entry =
  if strict_neq_true (draft entry)
       && isMatch (inputPath entry) collections_articles
  then count (getAllSorted api) entry else 0.
Proof.
  unfold articles, getFilteredByGlob. rewrite !count_filter. simpl.
  rewrite orb_false_r.
  now destruct (strict_neq_true (draft entry)), (isMatch _ _).
Qed.

Lemma count_sitemap (api : collectionApi) (entry : item) :
  count (sitemap isMatch api) entry =
  if strict_neq_true (draft entry)
       && (isMatch (inputPath entry) collections_articles
           || isMatch (inputPath entry) collections_pages)
  then count (getAllSorted api) entry else 0.
Proof.
  unfold sitemap, getFilteredByGlob. rewrite !count_filter. simpl.
  rewrite orb_false_r.
  now destruct (strict_neq_true (draft entry)), (isMatch _ _), (isMatch _ _).
Qed.

Lemma filter_filter_or (f g : item -> bool) (l : list item) :
  filter f (filter (fun x => f x || g x) l) = filter f l.
Proof.
  induction l as [|y l IH]; simpl; [reflexivity|].
  destruct (f y) eqn:Fy, (g y) eqn:Gy; simpl; rewrite ?Fy; simpl;
    now rewrite ?IH.
Qed.

Lemma filter_comm (f g : item -> bool) (l : list item) :
  filter f (filter g l) = filter g (filter f l).
Proof.
  induction l as [|y l IH]; simpl; [reflexivity|].
  destruct (f y) eqn:Fy, (g y) eqn:Gy; simpl; rewrite ?Fy, ?Gy, IH; reflexivity.
Qed.

(** The articles are the entries of the sitemap that match the glob of
    the articles, in the same order. *)
Lemma articles_of_sitemap (api : collectionApi) :
  articles isMatch api =
  filter (fun entry => isMatch (inputPath entry) collections_articles)
    (sitemap isMatch api).
Proof.
  unfold articles, sitemap, getFilteredByGlob.
  set (all := getAllSorted api).
  set (isArticle := fun entry => isMatch (inputPath entry) collections_articles).
  set (isPage := fun entry => isMatch (inputPath entry) collections_pages).
  assert (E1 : filter (fun entry => existsb (isMatch (inputPath entry))
                                      [collections_articles]) all
               = filter isArticle all).
  { apply filter_ext. intros a. simpl. apply orb_false_r. }
  assert (E2 : filter (fun entry => existsb (isMatch (inputPath entry))
                                      [collections_articles; collections_pages]) all
               = filter (fun entry => isArticle entry || isPage entry) all).
  { apply filter_ext. intros a. simpl. now rewrite orb_false_r. }
  rewrite E1, E2, (filter_comm isArticle), filter_filter_or. reflexivity.
Qed.

(** C2: an item whose [draft] is [true] is in neither collection; an item
    whose [draft] is anything else, and that the generator lists once, is
    exactly once in the articles and in the sitemap when its path matches
    the glob of the articles, and exactly once in the sitemap when it
    matches the glob of the pages. *)
Theorem drafts_out_others_once (api : collectionApi) (entry : item) :
  (draft entry = JBool true ->
     ~ In entry (articles isMatch api) /\ ~ In entry (sitemap isMatch api)) /\
  (draft entry <> JBool true ->
   count_occ item_eq_dec (getAllSorted api) entry = 1 ->
     (isMatch (inputPath entry) collections_articles = true ->
        count_occ item_eq_dec (articles isMatch api) entry = 1 /\
        count_occ item_eq_dec (sitemap isMatch api) entry = 1) /\
     (isMatch (inputPath entry) collections_pages = true ->
        count_occ item_eq_dec (sitemap isMatch api) entry = 1)).
Proof.
  split.
  - intros Hd. apply strict_neq_true_spec in Hd.
    split; intros Hin; unfold articles, sitemap in Hin;
      apply filter_In in Hin as [_ Hp]; congruence.
  - intros Hd Hone.
    assert (Hp : strict_neq_true (draft entry) = true).
    { destruct (strict_neq_true (draft entry)) eqn:E; [reflexivity|].
      apply strict_neq_true_spec in E. contradiction. }
    fold count in Hone |- *.
    rewrite count_articles, count_sitemap, Hp. simpl.
    split; [intros ->; simpl; auto | intros ->; rewrite orb_true_r; auto].
Qed.

(** C10: every item of the articles collection is an item of the sitemap
    collection. *)
Theorem articles_within_sitemap (api : collectionApi) (entry : item) :
  In entry (articles isMatch api) -> In entry (sitemap isMatch api).
Proof.
  rewrite articles_of_sitemap. intros H. now apply filter_In in H as [H _].
Qed.

End CollectionFacts.

Lemma drafts_out_others_once_witness :
  (~ In Sample.hidden (articles Sample.isMatch Sample.api) /\
   ~ In Sample.hidden (sitemap Sample.isMatch Sample.api)) /\
  (count_occ item_eq_dec (articles Sample.isMatch Sample.api) Sample.post = 1 /\
   count_occ item_eq_dec (sitemap Sample.isMatch Sample.api) Sample.post = 1) /\
  count_occ item_eq_dec (sitemap Sample.isMatch Sample.api) Sample.about = 1.
Proof.
  split; [|split].
  - apply (drafts_out_others_once Sample.isMatch Sample.api Sample.hidden).
    reflexivity.
  - apply (drafts_out_others_once Sample.isMatch Sample.api Sample.post).
    + discriminate.
    + reflexivity.
    + reflexivity.
  - apply (drafts_out_others_once Sample.isMatch Sample.api Sample.about).
    + discriminate.
    + reflexivity.
    + reflexivity.
Defined.

Lemma articles_within_sitemap_witness :
  In Sample.post (articles Sample.isMatch Sample.api) /\
  In Sample.post (sitemap Sample.isMatch Sample.api).
Proof.
  assert (H : In Sample.post (articles Sample.isMatch Sample.api)).
  { simpl. left. reflexivity. }
  split; [exact H|].
  apply (articles_within_sitemap Sample.isMatch Sample.api Sample.post H).
Defined.

(** * Dates *)

Section DateFacts.
Import JSDate.
Local Open Scope Z_scope.

(** [YearFromTime] is the year of ECMAScript: the largest one that
    starts no later than [t]. *)
Lemma YearFromTime_spec (t : Z) :
  TimeFromYear (YearFromTime t) <= t < TimeFromYear (YearFromTime t + 1).
Proof.
  unfold YearFromTime, year_search.
  set (y0 := 1970 + 400 * Day t / 146097 + 1).
  assert (Hhi : t < TimeFromYear (y0 + 1)).
  { unfold y0, TimeFromYear, DayFromYear, Day, msPerDay.
    Z.div_mod_to_equations. lia. }
  assert (Hlo : TimeFromYear (y0 - 1 - 1 - 1) <= t).
  { unfold y0, TimeFromYear, DayFromYear, Day, msPerDay.
    Z.div_mod_to_equations. lia. }
  destruct (Z.leb_spec (TimeFromYear y0) t); [lia|].
  destruct (Z.leb_spec (TimeFromYear (y0 - 1)) t).
  { replace (y0 - 1 + 1) with y0 by lia. lia. }
  destruct (Z.leb_spec (TimeFromYear (y0 - 1 - 1)) t).
  { replace (y0 - 1 - 1 + 1) with (y0 - 1) by lia. lia. }
  replace (y0 - 1 - 1 - 1 + 1) with (y0 - 1 - 1) by lia. lia.
Qed.

Lemma TimeFromYear_mono (y y' : Z) : y <= y' -> TimeFromYear y <= TimeFromYear y'.
Proof.
  unfold TimeFromYear, DayFromYear, msPerDay. intros H.
  Z.div_mod_to_equations. lia.
Qed.

(** The year is determined by the bounds of [YearFromTime_spec]. *)
Lemma YearFromTime_unique (t y : Z) :
  TimeFromYear y <= t < TimeFromYear (y + 1) -> YearFromTime t = y.
Proof.
  intros [Hlo Hhi]. pose proof (YearFromTime_spec t) as [Hlo' Hhi'].
  destruct (Z.lt_trichotomy (YearFromTime t) y) as [Hlt | [Heq | Hgt]];
    [exfalso | exact Heq | exfalso].
  - pose proof (TimeFromYear_mono (YearFromTime t + 1) y ltac:(lia)). lia.
  - pose proof (TimeFromYear_mono (y + 1) (YearFromTime t) ltac:(lia)). lia.
Qed.

Lemma Day_2024_03_05 (t : Z) : on_2024_03_05 t -> Day t = 19787.
Proof.
  unfold on_2024_03_05, Day, msPerDay. intros H.
  symmetry. apply (Z.div_unique t 86400000 19787 (t - 19787 * 86400000)); lia.
Qed.

Lemma Year_2024_03_05 (t : Z) : on_2024_03_05 t -> YearFromTime t = 2024.
Proof.
  unfold on_2024_03_05. intros H. apply YearFromTime_unique.
  change (TimeFromYear 2024) with 1704067200000.
  change (TimeFromYear (2024 + 1)) with 1735689600000. lia.
Qed.

Lemma iso_date_2024_03_05 (t : Z) :
  on_2024_03_05 t -> iso_date t = "2024-03-05"%string.
Proof.
  intros H. unfold iso_date, DateFromTime, MonthFromTime, DayWithinYear, InLeapYear.
  rewrite (Year_2024_03_05 t H), (Day_2024_03_05 t H). reflexivity.
Qed.

Lemma dateISO_2024_03_05 (t : Z) :
  on_2024_03_05 t -> dateISO (Some t) = inr "2024-03-05"%string.
Proof.
  intros H. unfold dateISO, toISOString.
  rewrite (iso_date_2024_03_05 t H). reflexivity.
Qed.

(** An invalid date has no ISO text. *)
Lemma dateISO_invalid : dateISO None = inl RangeError.
Proof. reflexivity. Qed.

(** The day of [dateISO] is the day in UTC: midnight of 5 March 2024 one
    hour east of Greenwich still reads as the fourth. *)
Lemma dateISO_is_utc : dateISO (Some 1709593200000) = inr "2024-03-04"%string.
Proof. reflexivity. Qed.

Variable LocalTZA : Z -> Z.
Variable toLocaleString : Date -> string -> DateTimeFormatOptions -> string.

(** C7, as the code has it, with the zone of each reading named:
    [dateShort] reads the year in local time, of the date and of the clock
    alike; when the two local years are equal it asks for the long month
    and the numeric day and no year, and when the local year of the date
    is the earlier one it asks for the long date style, as [dateLong]
    does.  [dateISO] reads the day in UTC: for every time value on
    5 March 2024 in UTC it is the text [2024-03-05]. *)
Theorem dateShort_by_year_dateISO_by_day (now : Z) (value : Date) :
  (getFullYear LocalTZA value = getFullYear LocalTZA (Some now) ->
     dateShort LocalTZA toLocaleString now value =
     toLocaleString value "en"%string
       [("month", "long"); ("day", "numeric")]%string) /\
  (forall year current : Z,
     getFullYear LocalTZA value = Some year ->
     getFullYear LocalTZA (Some now) = Some current ->
     year < current ->
     dateShort LocalTZA toLocaleString now value =
       toLocaleString value "en"%string [("dateStyle", "long")]%string /\
     dateShort LocalTZA toLocaleString now value =
       dateLong toLocaleString value) /\
  (forall t : Z, on_2024_03_05 t -> dateISO (Some t) = inr "2024-03-05"%string).
Proof.
  unfold dateShort, dateLong. split; [|split].
  - intros ->. unfold getFullYear, number_lt. now rewrite Z.ltb_irrefl.
  - intros year current Hyear Hcurrent Hlt. rewrite Hyear, Hcurrent.
    unfold number_lt.
    apply Z.ltb_lt in Hlt. rewrite Hlt. split; reflexivity.
  - apply dateISO_2024_03_05.
Qed.

End DateFacts.

Lemma dateShort_by_year_dateISO_by_day_witness :
  JSDate.dateShort Sample.LocalTZA Sample.toLocaleString
    1709596800000%Z (Some 1704067200000%Z) = "month,day"
  /\ JSDate.dateShort Sample.LocalTZA Sample.toLocaleString
       1709596800000%Z (Some 1693526400000%Z) = "dateStyle"
  /\ JSDate.dateISO (Some 1709640000000%Z) = inr "2024-03-05".
Proof.
  split; [|split].
  - apply (dateShort_by_year_dateISO_by_day Sample.LocalTZA Sample.toLocaleString
             1709596800000%Z (Some 1704067200000%Z)).
    reflexivity.
  - destruct (dateShort_by_year_dateISO_by_day Sample.LocalTZA Sample.toLocaleString
                1709596800000%Z (Some 1693526400000%Z)) as (_ & Hearlier & _).
    apply (Hearlier 2023%Z 2024%Z).
    + reflexivity.
    + reflexivity.
    + lia.
  - destruct (dateShort_by_year_dateISO_by_day Sample.LocalTZA Sample.toLocaleString
                0%Z None) as (_ & _ & Hiso).
    apply Hiso. unfold JSDate.on_2024_03_05. lia.
Defined.

(** C7 as written fails, whichever zone the date is read in.  Read in
    local time: midnight of 5 March 2024 one hour east of Greenwich is a
    date of 5 March 2024, and its [dateISO] is the fourth.  Read in UTC:
    midnight of 1 January 2024 is a date of the year 2024, the clock on
    5 March 2024 is in the same year, and five hours west of Greenwich
    [dateShort] still asks for the long date style, because there the date
    is in 2023. *)
Lemma dates_zone_matters :
  (JSDate.on_2024_03_05 (JSDate.LocalTime Host.one_hour_east 1709593200000)
   /\ JSDate.dateISO (Some 1709593200000%Z) = inr "2024-03-04"
   /\ JSDate.dateISO (Some 1709593200000%Z) <> inr "2024-03-05")
  /\
  (JSDate.YearFromTime 1704067200000 = JSDate.YearFromTime 1709596800000
   /\ JSDate.getFullYear Host.five_hours_west (Some 1704067200000%Z) = Some 2023%Z
   /\ JSDate.getFullYear Host.five_hours_west (Some 1709596800000%Z) = Some 2024%Z
   /\ JSDate.dateShort Host.five_hours_west Sample.toLocaleString
        1709596800000%Z (Some 1704067200000%Z)
      = Sample.toLocaleString (Some 1704067200000%Z) "en" [("dateStyle", "long")]
   /\ JSDate.dateShort Host.five_hours_west Sample.toLocaleString
        1709596800000%Z (Some 1704067200000%Z)
      <> Sample.toLocaleString (Some 1704067200000%Z) "en"
           [("month", "long"); ("day", "numeric")]).
Proof.
  split.
  - split; [unfold JSDate.on_2024_03_05; cbn; lia|].
    split; [reflexivity|]. intros H. vm_compute in H. discriminate.
  - repeat split; try reflexivity. intros H. vm_compute in H. discriminate.
Qed.

(** * Transforms *)

Section MinifyFacts.

Variable htmlMin_minify : string -> MinifyOptions -> exn + string.
Variable pd_xmlmin : string -> exn + string.

Lemma path_endsWith_spec (path : option string) (ext : string) :
  path_endsWith path ext = true <-> exists stem, path = Some (stem ++ ext).
Proof.
  destruct path as [p|]; simpl.
  - rewrite endsWith_spec. split; intros [stem H]; exists stem; congruence.
  - split; [discriminate | intros [stem H]; discriminate].
Qed.

Lemma path_endsWith_false (path : option string) (ext : string) :
  (forall stem, path <> Some (stem ++ ext)) -> path_endsWith path ext = false.
Proof.
  intros H. destruct (path_endsWith path ext) eqn:E; [|reflexivity].
  apply path_endsWith_spec in E as [stem E]. now apply H in E.
Qed.

(** C6: for a path that ends in [.html] the transform returns what the
    minifier makes of the content under the five options of the
    configuration; for every other path, and when there is no path, it
    returns the content. *)
Theorem html_minify_only_html (content : string) :
  (forall stem : string,
     html_minify htmlMin_minify content (Some (stem ++ ".html")) =
     htmlMin_minify content
       {| collapseBooleanAttributes := true;
          collapseWhitespace := true;
          decodeEntities := true;
          includeAutoGeneratedTags := false;
          removeComments := true |}) /\
  (forall path : option string,
     (forall stem, path <> Some (stem ++ ".html")) ->
     html_minify htmlMin_minify content path = inr content) /\
  html_minify htmlMin_minify content None = inr content.
Proof.
  unfold html_minify. split; [|split].
  - intros stem.
    now rewrite (proj2 (path_endsWith_spec _ _) (ex_intro _ stem eq_refl)).
  - intros path H. now rewrite (path_endsWith_false _ _ H).
  - reflexivity.
Qed.

(** The XML transform hands the content of the files whose path ends in
    the extension to the minifier and returns every other content as it
    is. *)
Lemma xmlMin_only_xml (content : string) :
  (forall stem, xmlMin pd_xmlmin content (Some (stem ++ ".xml")) = pd_xmlmin content) /\
  (forall path, (forall stem, path <> Some (stem ++ ".xml")) ->
     xmlMin pd_xmlmin content path = inr content).
Proof.
  unfold xmlMin. split.
  - intros stem.
    now rewrite (proj2 (path_endsWith_spec _ _) (ex_intro _ stem eq_refl)).
  - intros path H. now rewrite (path_endsWith_false _ _ H).
Qed.

End MinifyFacts.

Lemma html_minify_only_html_witness :
  html_minify Sample.minifier "<p> a </p>" (Some "feed.xml") = inr "<p> a </p>".
Proof.
  destruct (html_minify_only_html Sample.minifier "<p> a </p>") as (_ & Hother & _).
  apply Hother.
  intros stem H. injection H as H.
  assert (E : JSString.endsWith "feed.xml" ".html" = true).
  { apply endsWith_spec. exists stem. exact H. }
  vm_compute in E. discriminate.
Defined.

Section HtmlTransformFacts.
Import Promise Promise.Notations.

Variable World : Type.
Variable Window : Type.
Variable dom_parseHTML : string -> Async World Window.
Variable document_toString : Window -> Async World string.
Variables anchors demos figure images prism : transform World Window.

Let run : string -> option string -> Async World string :=
  html_transform World Window dom_parseHTML document_toString
    anchors demos figure images prism.

(** The loop over the passes, written out. *)
Lemma html_transform_unrolled (content stem : string) (w : World) :
  run content (Some (stem ++ ".html")) w =
  (window <- dom_parseHTML content ;;
   anchors window content (stem ++ ".html") ;;
   demos window content (stem ++ ".html") ;;
   figure window content (stem ++ ".html") ;;
   images window content (stem ++ ".html") ;;
   prism window content (stem ++ ".html") ;;
   document_toString window) w.
Proof.
  unfold run, html_transform.
  rewrite (proj2 (endsWith_spec (stem ++ ".html") ".html") (ex_intro _ stem eq_refl)).
  unfold htmlTransforms, for_of, bind, ret.
  destruct (dom_parseHTML content w) as [e|[window w1]]; [reflexivity|].
  destruct (anchors window content _ w1) as [e|[[] w2]]; [reflexivity|].
  destruct (demos window content _ w2) as [e|[[] w3]]; [reflexivity|].
  destruct (figure window content _ w3) as [e|[[] w4]]; [reflexivity|].
  destruct (images window content _ w4) as [e|[[] w5]]; [reflexivity|].
  destruct (prism window content _ w5) as [e|[[] w6]]; reflexivity.
Qed.

(** A pass that throws ends the transform with its exception: the passes
    behind it do not run and nothing is returned. *)
Lemma html_transform_aborts (content stem : string) (e : exn)
    (window : Window) (w0 w1 w2 w3 : World) :
  dom_parseHTML content w0 = inr (window, w1) ->
  anchors window content (stem ++ ".html") w1 = inr (tt, w2) ->
  demos window content (stem ++ ".html") w2 = inr (tt, w3) ->
  figure window content (stem ++ ".html") w3 = inl e ->
  run content (Some (stem ++ ".html")) w0 = inl e.
Proof.
  intros Hparse Ha Hd Hf. rewrite html_transform_unrolled.
  unfold bind. now rewrite Hparse, Ha, Hd, Hf.
Qed.

(** C3: for a path that ends in [.html] the transform is the parse of the
    content, then anchors, demos, figure, images and prism in this order,
    then the serialization of the document; each pass starts in the world
    that the pass before it left when it settled, on the same window, so
    that the text returned is that of the document after the fifth
    pass. *)
Theorem html_transform_in_order (content stem : string) :
  (forall w : World,
     run content (Some (stem ++ ".html")) w =
     (window <- dom_parseHTML content ;;
      anchors window content (stem ++ ".html") ;;
      demos window content (stem ++ ".html") ;;
      figure window content (stem ++ ".html") ;;
      images window content (stem ++ ".html") ;;
      prism window content (stem ++ ".html") ;;
      document_toString window) w) /\
  (forall (window : Window) (w0 w1 w2 w3 w4 w5 w6 : World),
     dom_parseHTML content w0 = inr (window, w1) ->
     anchors window content (stem ++ ".html") w1 = inr (tt, w2) ->
     demos window content (stem ++ ".html") w2 = inr (tt, w3) ->
     figure window content (stem ++ ".html") w3 = inr (tt, w4) ->
     images window content (stem ++ ".html") w4 = inr (tt, w5) ->
     prism window content (stem ++ ".html") w5 = inr (tt, w6) ->
     run content (Some (stem ++ ".html")) w0 = document_toString window w6).
Proof.
  split.
  - apply html_transform_unrolled.
  - intros window w0 w1 w2 w3 w4 w5 w6 Hparse Ha Hd Hf Hi Hp.
    rewrite html_transform_unrolled. unfold bind.
    now rewrite Hparse, Ha, Hd, Hf, Hi, Hp.
Qed.

End HtmlTransformFacts.

Lemma html_transform_in_order_witness :
  html_transform string unit Sample.parseHTML Sample.toString
    (Sample.pass "anchors") (Sample.pass "demos") (Sample.pass "figure")
    (Sample.pass "images") (Sample.pass "prism")
    "<p>" (Some ("index" ++ ".html")) EmptyString =
  inr ("<p>[anchors][demos][figure][images][prism]",
       "<p>[anchors][demos][figure][images][prism]").
Proof.
  destruct (html_transform_in_order string unit Sample.parseHTML Sample.toString
              (Sample.pass "anchors") (Sample.pass "demos") (Sample.pass "figure")
              (Sample.pass "images") (Sample.pass "prism")
              "<p>" "index") as [_ Hchain].
  apply (Hchain tt
           EmptyString
           "<p>"
           "<p>[anchors]"
           "<p>[anchors][demos]"
           "<p>[anchors][demos][figure]"
           "<p>[anchors][demos][figure][images]"
           "<p>[anchors][demos][figure][images][prism]");
    reflexivity.
Defined.

(** * Style sheets and scripts *)

Section AssetFacts.
Import Promise Promise.Notations.

Variable World : Type.
Variable plugin : Type.
Variables postcssImport postcssMediaMinmax autoprefixer postcssCsso : plugin.
Variable postcss_process :
  list plugin -> string -> ProcessOptions -> Async World ProcessResult.
Variable esbuild_build : BuildOptions -> Async World BuildResult.

(** C4: for a path outside the three entry points the compile step
    returns nothing; for one of the three it returns a render function,
    and what that function returns is the style sheet that PostCSS makes of
    the content with the import, media-minmax, autoprefixer and csso
    plugins, in this order, read from the path. *)
Theorem css_compile_allow_list (content path : string) (w : World) :
  let entries := [ "./src/styles/index.css";
                   "./src/styles/light.css";
                   "./src/styles/dark.css" ] in
  let chain := [postcssImport; postcssMediaMinmax; autoprefixer; postcssCsso] in
  let compile := css_compile World plugin postcssImport postcssMediaMinmax
                   autoprefixer postcssCsso postcss_process in
  (~ In path entries -> compile content path w = inr (None, w)) /\
  (In path entries ->
     exists render,
       compile content path w = inr (Some render, w) /\
       forall w0,
         render w0 =
         match postcss_process chain content {| from := path |} w0 with
         | inl e => inl e
         | inr (output, w1) => inr (css output, w1)
         end).
Proof.
  intros entries chain compile. unfold compile, css_compile.
  change styles with entries. split; intros H.
  - destruct (JSString.includes entries path) eqn:E; [|reflexivity].
    now apply includes_spec in E.
  - rewrite (proj2 (includes_spec entries path) H). simpl.
    eexists. split; [reflexivity|]. intros w0.
    unfold css_render, bind, ret.
    now destruct (postcss_process _ _ _ w0) as [e|[output w1]].
Qed.

(** C5: for every path other than [./src/scripts/index.js] the compile
    step returns nothing; for that path it returns a render function, and
    what that function returns is the text of the first output file of
    esbuild, run on the path with bundling and minification switched on. *)
Theorem js_compile_single_entry (content path : string) (w : World) :
  let compile := js_compile World esbuild_build in
  (path <> "./src/scripts/index.js" -> compile content path w = inr (None, w)) /\
  (path = "./src/scripts/index.js" ->
     exists render,
       compile content path w = inr (Some render, w) /\
       forall w0,
         render w0 =
         match esbuild_build {| target := "es2020";
                                entryPoints := ["./src/scripts/index.js"];
                                minify := true;
                                bundle := true;
                                write := false |} w0 with
         | inl e => inl e
         | inr (output, w1) =>
             match outputFiles output with
             | file :: _ => inr (text file, w1)
             | [] => inl TypeError
             end
         end).
Proof.
  intros compile. unfold compile, js_compile. split; intros H.
  - apply String.eqb_neq in H. now rewrite H.
  - subst path. rewrite String.eqb_refl. simpl.
    eexists. split; [reflexivity|]. intros w0.
    unfold js_render, bind, ret, throw.
    destruct (esbuild_build _ w0) as [e|[output w1]]; [reflexivity|].
    now destruct (outputFiles output).
Qed.

End AssetFacts.

Lemma css_compile_allow_list_witness :
  css_compile unit string "import" "minmax" "autoprefixer" "csso" Sample.process
    "a{}" "./src/styles/print.css" tt = inr (None, tt)
  /\ exists render,
       css_compile unit string "import" "minmax" "autoprefixer" "csso" Sample.process
         "a{}" "./src/styles/dark.css" tt = inr (Some render, tt)
       /\ render tt = inr ("import+minmax+autoprefixer+csso:a{}", tt).
Proof.
  split.
  - apply (css_compile_allow_list unit string "import" "minmax" "autoprefixer" "csso"
             Sample.process "a{}" "./src/styles/print.css" tt).
    simpl. intros [H | [H | [H | []]]]; discriminate.
  - destruct (css_compile_allow_list unit string "import" "minmax" "autoprefixer" "csso"
                Sample.process "a{}" "./src/styles/dark.css" tt) as [_ Hin].
    destruct Hin as (render & Hcompile & Hrender).
    + simpl. right. right. left. reflexivity.
    + exists render. split; [exact Hcompile|]. rewrite Hrender. reflexivity.
Defined.

Lemma js_compile_single_entry_witness :
  js_compile unit Sample.build "let a" "./src/scripts/other.js" tt = inr (None, tt)
  /\ exists render,
       js_compile unit Sample.build "let a" "./src/scripts/index.js" tt
         = inr (Some render, tt)
       /\ render tt = inr ("bundle:./src/scripts/index.js", tt).
Proof.
  split.
  - apply (js_compile_single_entry unit Sample.build "let a" "./src/scripts/other.js" tt).
    discriminate.
  - destruct (js_compile_single_entry unit Sample.build "let a"
                "./src/scripts/index.js" tt) as [_ Hentry].
    destruct (Hentry eq_refl) as (render & Hcompile & Hrender).
    exists render. split; [exact Hcompile|]. rewrite Hrender. reflexivity.
Defined.

(** * More about the [absolute] filter *)

Section AbsoluteCases.
Import JSString RegExp Absolute.

Variable global : Global.
Variable article : item.

Let base : string := domain global ++ url article.

Ltac scan := repeat (rewrite replace_none by reflexivity).

Lemma match_alt_literal_ok (l : string) (a : atom) (X : ascii) (rest : string) :
  atom_matches a X = true ->
  match_alt (literal l ++ [a])%list (l ++ String X rest)
  = Some (l ++ String X EmptyString, rest).
Proof.
  intros Ha. induction l as [|c l IH]; cbn [literal app append match_alt].
  - now rewrite Ha.
  - cbn [atom_matches]. now rewrite Ascii.eqb_refl, IH.
Qed.

Lemma match_alt_none_last (l : string) (a : atom) (X : ascii) (rest : string) :
  atom_matches a X = false ->
  match_alt (literal l ++ [a])%list (l ++ String X rest) = None.
Proof.
  intros Ha. induction l as [|c l IH]; cbn [literal app append match_alt].
  - now rewrite Ha.
  - cbn [atom_matches]. now rewrite Ascii.eqb_refl, IH.
Qed.

Lemma outside_class (X : ascii) :
  ~ In X (chars "(https://)") ->
  atom_matches (NoneOf (chars "(https://)")) X = true /\ Ascii.eqb X "/" = false.
Proof.
  intros HX. split.
  - unfold atom_matches. apply negb_true_iff.
    destruct (existsb (Ascii.eqb X) (chars "(https://)")) eqn:E; [|reflexivity].
    apply existsb_exists in E as (y & Hy & Exy). apply Ascii.eqb_eq in Exy.
    subst y. contradiction.
  - apply Ascii.eqb_neq. intros ->. apply HX. cbn. tauto.
Qed.

(** The match at an attribute of the pattern whose value starts with a
    character that the last atom of an alternative accepts. *)
Lemma match_here_reg_at (a : string) (last : atom) (X : ascii) (rest : string) :
  (a = "src=" \/ a = "href=") ->
  (last = NoneOf (chars "(https://)") \/ last = Lit "/"%char) ->
  atom_matches last X = true ->
  match_here reg ((a ++ quote) ++ String X rest)
  = Some (a ++ String dquote (String X EmptyString), rest).
Proof.
  intros Ha Hlast HX.
  assert (Hex : forall l, match_alt (literal l ++ [last])%list (l ++ String X rest)
                          = Some (l ++ String X EmptyString, rest))
    by (intros l; now apply match_alt_literal_ok).
  assert (Hexcl : last = Lit "/"%char ->
                  atom_matches (NoneOf (chars "(https://)")) X = false).
  { intros ->. cbn in HX. apply Ascii.eqb_eq in HX. now subst X. }
  unfold reg. cbn [match_here].
  destruct Ha as [-> | ->], Hlast as [-> | Hl].
  - rewrite Hex. reflexivity.
  - rewrite (match_alt_none_last _ _ _ _ (Hexcl Hl)). subst last.
    rewrite Hex. reflexivity.
  - replace (match_alt (literal ("src=" ++ quote) ++ [NoneOf (chars "(https://)")])%list
               (("href=" ++ quote) ++ String X rest)) with (@None (string * string))
      by reflexivity.
    replace (match_alt (literal ("src=" ++ quote) ++ [Lit "/"%char])%list
               (("href=" ++ quote) ++ String X rest)) with (@None (string * string))
      by reflexivity.
    rewrite Hex. reflexivity.
  - replace (match_alt (literal ("src=" ++ quote) ++ [NoneOf (chars "(https://)")])%list
               (("href=" ++ quote) ++ String X rest)) with (@None (string * string))
      by reflexivity.
    replace (match_alt (literal ("src=" ++ quote) ++ [Lit "/"%char])%list
               (("href=" ++ quote) ++ String X rest)) with (@None (string * string))
      by reflexivity.
    rewrite (match_alt_none_last _ _ _ _ (Hexcl Hl)). subst last.
    rewrite Hex. reflexivity.
Qed.

(** What happens at a match, whatever surrounds it. *)
Lemma absolute_at_match (name before after : string) (last : atom) (X : ascii) :
  name = "src" \/ name = "href" ->
  (last = NoneOf (chars "(https://)") \/ last = Lit "/"%char) ->
  atom_matches last X = true ->
  absolute global (before ++ name ++ "=" ++ quote ++ String X after) article =
  absolute global before article
    ++ name ++ "=" ++ quote ++ base
    ++ (if Ascii.eqb X "/" then EmptyString else String X EmptyString)
    ++ absolute global after article.
Proof.
  intros Hname Hlast HX. unfold absolute. fold base.
  destruct Hname as [-> | ->].
  - pose proof (match_here_reg_at "src=" last X after (or_introl eq_refl) Hlast HX) as E.
    pose proof (replacer_shape base "src=" X (or_introl eq_refl)) as R.
    unfold quote in *. cbn [append] in *.
    rewrite (replace_boundary reg _ "s" reg_boundary_s). apply f_equal.
    rewrite replace_cons, E. cbv beta iota. rewrite R.
    cbn [append]. now rewrite !append_assoc.
  - pose proof (match_here_reg_at "href=" last X after (or_intror eq_refl) Hlast HX) as E.
    pose proof (replacer_shape base "href=" X (or_intror eq_refl)) as R.
    unfold quote in *. cbn [append] in *.
    rewrite (replace_boundary reg _ "h" reg_boundary_h). apply f_equal.
    rewrite replace_cons, E. cbv beta iota. rewrite R.
    cbn [append]. now rewrite !append_assoc.
Qed.


(** X2: in a [src] or [href] whose value starts with a character outside
    the class of the pattern, the domain and the URL of the article are
    put in front of the value; what precedes and what follows is treated
    on its own. *)
Theorem absolute_relative_value (name before after : string) (X : ascii) :
  name = "src" \/ name = "href" ->
  ~ In X (chars "(https://)") ->
  absolute global (before ++ name ++ "=" ++ quote ++ String X after) article =
  absolute global before article
    ++ name ++ "=" ++ quote ++ (domain global ++ url article)
    ++ String X (absolute global after article).
Proof.
  intros Hname HX. destruct (outside_class X HX) as [Hm Hs].
  rewrite (absolute_at_match name before after _ X Hname (or_introl eq_refl) Hm).
  fold base. now rewrite Hs.
Qed.

(** X3: in a [src] or [href] whose value starts with a slash, the slash
    is dropped and the domain and the URL of the article take its place,
    so that a second slash of a scheme-relative URL stays behind them. *)
Theorem absolute_root_relative_value (name before after : string) :
  name = "src" \/ name = "href" ->
  absolute global (before ++ name ++ "=" ++ quote ++ "/" ++ after) article =
  absolute global before article
    ++ name ++ "=" ++ quote ++ (domain global ++ url article)
    ++ absolute global after article.
Proof.
  intros Hname.
  change ("/" ++ after) with (String "/" after).
  rewrite (absolute_at_match name before after (Lit "/") "/" Hname
             (or_intror eq_refl) eq_refl).
  reflexivity.
Qed.

(** X4: a [src] or [href] whose value starts with one of the characters
    of the class other than the slash, that is a parenthesis, [h], [t],
    [p], [s] or a colon, comes out unchanged, relative path or not. *)
Theorem absolute_class_value_kept (name value before after : string) (X : ascii) :
  name = "src" \/ name = "href" ->
  In X (chars "(htps:)") ->
  contains dquote (String X value) = false ->
  exists tail,
    absolute global (before ++ attribute name (String X value) ++ after) article =
    absolute global before article ++ attribute name (String X value) ++ tail.
Proof.
  intros Hname HX Hq. unfold attribute.
  destruct (replace_unquoted base (String X value) after Hq) as [tail Htail].
  exists tail. unfold absolute. fold base.
  assert (HXcases : X = "("%char \/ X = "h"%char \/ X = "t"%char \/ X = "p"%char
                    \/ X = "s"%char \/ X = ":"%char \/ X = ")"%char).
  { cbn in HX. intuition auto. }
  replace (before ++ (name ++ "=" ++ quote ++ String X value ++ quote) ++ after)
    with (before ++ name ++ "=" ++ quote ++ (String X value ++ String dquote after))
    by (unfold quote; repeat (rewrite !append_assoc; cbn [append]); reflexivity).
  unfold quote.
  destruct Hname as [-> | ->]; cbn [append].
  - rewrite (replace_boundary reg _ "s" reg_boundary_s).
    rewrite !append_assoc. apply f_equal.
    assert (E : match_here reg (String "s" (String "r" (String "c" (String "="
                  (String dquote (String X (value ++ String dquote after)))))))
                = None).
    { destruct HXcases as [-> | [-> | [-> | [-> | [-> | [-> | ->]]]]]]; reflexivity. }
    rewrite (replace_none _ _ _ E). scan.
    cbn [append] in Htail. rewrite Htail. reflexivity.
  - rewrite (replace_boundary reg _ "h" reg_boundary_h).
    rewrite !append_assoc. apply f_equal.
    assert (E : match_here reg (String "h" (String "r" (String "e" (String "f" (String "="
                  (String dquote (String X (value ++ String dquote after))))))))
                = None).
    { destruct HXcases as [-> | [-> | [-> | [-> | [-> | [-> | ->]]]]]]; reflexivity. }
    rewrite (replace_none _ _ _ E). scan.
    cbn [append] in Htail. rewrite Htail. reflexivity.
Qed.

End AbsoluteCases.


Lemma absolute_relative_value_witness :
  Absolute.absolute Sample.global
    ("<a " ++ "href" ++ "=" ++ JSString.quote ++ String "#" ("top" ++ JSString.quote ++ ">"))
    Sample.post
  = Absolute.absolute Sample.global "<a " Sample.post
      ++ "href" ++ "=" ++ JSString.quote ++ ("https://example.com" ++ "/posts/a/")
      ++ String "#"
           (Absolute.absolute Sample.global ("top" ++ JSString.quote ++ ">") Sample.post).
Proof.
  apply (absolute_relative_value Sample.global Sample.post "href" "<a "
           ("top" ++ JSString.quote ++ ">") "#").
  - right. reflexivity.
  - cbn. intros H. repeat (destruct H as [H | H]; [discriminate H|]). exact H.
Defined.

Lemma absolute_root_relative_value_witness :
  Absolute.absolute Sample.global
    ("<script " ++ "src" ++ "=" ++ JSString.quote ++ "/" ++ "/cdn.example/a.js")
    Sample.post
  = Absolute.absolute Sample.global "<script " Sample.post
      ++ "src" ++ "=" ++ JSString.quote ++ ("https://example.com" ++ "/posts/a/")
      ++ Absolute.absolute Sample.global "/cdn.example/a.js" Sample.post.
Proof.
  apply (absolute_root_relative_value Sample.global Sample.post "src" "<script "
           "/cdn.example/a.js").
  left. reflexivity.
Defined.

Lemma absolute_class_value_kept_witness :
  exists tail,
    Absolute.absolute Sample.global
      ("<img " ++ Absolute.attribute "src" (String "p" "hoto.png") ++ ">") Sample.post
    = Absolute.absolute Sample.global "<img " Sample.post
        ++ Absolute.attribute "src" (String "p" "hoto.png") ++ tail.
Proof.
  apply (absolute_class_value_kept Sample.global Sample.post "src" "hoto.png"
           "<img " ">" "p").
  - left. reflexivity.
  - cbn. tauto.
  - reflexivity.
Defined.

(** * More about the collections *)

Section CollectionMore.

Variable isMatch : string -> string -> bool.

(** X5: an item is in the articles exactly when the generator lists it,
    its path matches the glob of the articles and its [draft] is not
    [true]; it is in the sitemap exactly when the generator lists it, its
    path matches the glob of the articles or that of the pages and its
    [draft] is not [true]. *)
Theorem collections_membership (api : collectionApi) (entry : item) :
  (In entry (articles isMatch api) <->
     In entry (getAllSorted api)
     /\ isMatch (inputPath entry) collections_articles = true
     /\ draft entry <> JBool true) /\
  (In entry (sitemap isMatch api) <->
     In entry (getAllSorted api)
     /\ (isMatch (inputPath entry) collections_articles = true
         \/ isMatch (inputPath entry) collections_pages = true)
     /\ draft entry <> JBool true).
Proof.
  assert (Hd : strict_neq_true (draft entry) = true <-> draft entry <> JBool true).
  { rewrite <- (strict_neq_true_spec (draft entry)).
    destruct (strict_neq_true (draft entry)); split; congruence. }
  unfold articles, sitemap, getFilteredByGlob. split.
  - rewrite !filter_In. simpl. rewrite orb_false_r, Hd. tauto.
  - rewrite !filter_In. simpl. rewrite orb_false_r, orb_true_iff, Hd. tauto.
Qed.

Lemma property_absent (fields : list (string * jsval)) (key : string) :
  (forall v, ~ In (key, v) fields) -> property fields key = JUndefined.
Proof.
  induction fields as [|[k v] fields IH]; intros H; [reflexivity|].
  cbn [property]. destruct (String.eqb_spec k key) as [->|Hne].
  - exfalso. apply (H v). left. reflexivity.
  - apply IH. intros v' Hin. apply (H v'). right. exact Hin.
Qed.

(** X6: an item whose front matter has no draft key at all is published:
    when the generator lists it, it is in the articles and in the sitemap
    if its path matches the glob of the articles, and in the sitemap if
    its path matches the glob of the pages. *)
Theorem no_draft_key_published (api : collectionApi) (entry : item) :
  (forall v, ~ In ("draft", v) (data entry)) ->
  In entry (getAllSorted api) ->
  (isMatch (inputPath entry) collections_articles = true ->
     In entry (articles isMatch api) /\ In entry (sitemap isMatch api)) /\
  (isMatch (inputPath entry) collections_pages = true ->
     In entry (sitemap isMatch api)).
Proof.
  intros Hkey Hin.
  assert (Hd : draft entry <> JBool true).
  { unfold draft. rewrite (property_absent _ _ Hkey). discriminate. }
  destruct (collections_membership api entry) as [Ha Hs].
  split; intros Hm.
  - split; [apply Ha | apply Hs]; auto.
  - apply Hs. auto.
Qed.

Lemma StronglySorted_filter {A : Type} (R : A -> A -> Prop) (f : A -> bool) (l : list A) :
  StronglySorted R l -> StronglySorted R (filter f l).
Proof.
  induction 1 as [|x l Hl IH Hx]; simpl; [constructor|].
  destruct (f x); [|exact IH].
  constructor; [exact IH|].
  rewrite Forall_forall in *. intros y Hy. apply Hx.
  now apply filter_In in Hy as [Hy _].
Qed.

(** X7: the collections keep the order of the generator: whatever the
    order is by which [getAllSorted] is sorted, the articles and the
    sitemap are sorted by it too; and if no item is listed twice, none is
    twice in a collection. *)
Theorem collections_keep_order (R : item -> item -> Prop) (api : collectionApi) :
  (StronglySorted R (getAllSorted api) ->
     StronglySorted R (articles isMatch api) /\
     StronglySorted R (sitemap isMatch api)) /\
  (NoDup (getAllSorted api) ->
     NoDup (articles isMatch api) /\ NoDup (sitemap isMatch api)).
Proof.
  unfold articles, sitemap, getFilteredByGlob. split; intros H; split.
  - now do 2 apply StronglySorted_filter.
  - now do 2 apply StronglySorted_filter.
  - now do 2 apply NoDup_filter.
  - now do 2 apply NoDup_filter.
Qed.

(** X8: the sitemap has as many items as the articles and the published
    pages that are not articles together: an item whose path matches both
    globs is taken once. *)
Theorem sitemap_is_articles_and_pages (api : collectionApi) :
  length (sitemap isMatch api) =
  length (articles isMatch api)
  + length (filter (fun entry =>
              strict_neq_true (draft entry)
              && isMatch (inputPath entry) collections_pages
              && negb (isMatch (inputPath entry) collections_articles))
            (getAllSorted api)).
Proof.
  unfold articles, sitemap, getFilteredByGlob.
  induction (getAllSorted api) as [|e l IH]; [reflexivity|].
  simpl. rewrite !orb_false_r.
  destruct (isMatch (inputPath e) collections_articles),
           (isMatch (inputPath e) collections_pages),
           (strict_neq_true (draft e)) eqn:Hd; simpl; rewrite ?Hd; simpl;
    simpl in IH; rewrite ?orb_false_r in IH; lia.
Qed.

End CollectionMore.

Lemma no_draft_key_published_witness :
  In Host.note (articles Sample.isMatch Host.api) /\
  In Host.note (sitemap Sample.isMatch Host.api).
Proof.
  apply (no_draft_key_published Sample.isMatch Host.api Host.note).
  - intros v H. cbn in H. destruct H as [H | [H | []]]; discriminate H.
  - cbn. tauto.
  - reflexivity.
Defined.

Lemma collections_keep_order_witness :
  (StronglySorted Host.by_url (articles Sample.isMatch Host.api) /\
   StronglySorted Host.by_url (sitemap Sample.isMatch Host.api)) /\
  (NoDup (articles Sample.isMatch Host.api) /\
   NoDup (sitemap Sample.isMatch Host.api)).
Proof.
  destruct (collections_keep_order Sample.isMatch Host.by_url Host.api)
    as [Hsorted Hnodup].
  split.
  - apply Hsorted. cbn.
    repeat (constructor; [|repeat (constructor; try reflexivity)]). constructor.
  - apply Hnodup. cbn.
    repeat (constructor; [cbn; intuition discriminate|]). constructor.
Defined.

(** * More about the dates *)

Section DateMore.
Import JSString JSDate Calendar.
Local Open Scope Z_scope.

Lemma split_at_first (sep : ascii) (u rest : string) :
  contains sep u = false ->
  split sep (u ++ String sep rest) = u :: split sep rest.
Proof.
  induction u as [|c u IH]; intros Hq; cbn [append split].
  - now rewrite Ascii.eqb_refl.
  - cbn [contains] in Hq. apply orb_false_iff in Hq as [Hc Hq].
    rewrite Hc, (IH Hq). reflexivity.
Qed.

Lemma digit_is_digit (n : Z) :
  exists k : nat, (k < 10)%nat /\ digit n = ascii_of_nat (48 + k).
Proof.
  unfold digit. exists (Z.to_nat (n mod 10)). split; [|reflexivity].
  pose proof (Z.mod_pos_bound n 10 ltac:(lia)). lia.
Qed.

Lemma digit_not (c : ascii) (n : Z) :
  (nat_of_ascii c < 48 \/ 57 < nat_of_ascii c)%nat -> Ascii.eqb (digit n) c = false.
Proof.
  intros Hc. apply Ascii.eqb_neq. intros E.
  destruct (digit_is_digit n) as (k & Hk & Ek). rewrite Ek in E.
  apply (f_equal nat_of_ascii) in E.
  rewrite nat_ascii_embedding in E by lia. lia.
Qed.

Lemma padded_no (c : ascii) (w : nat) :
  (nat_of_ascii c < 48 \/ 57 < nat_of_ascii c)%nat ->
  forall n, contains c (padded w n) = false.
Proof.
  intros Hc. induction w as [|w IH]; intros n; [reflexivity|].
  cbn [padded]. rewrite contains_append, IH. cbn [contains].
  now rewrite (digit_not c n Hc).
Qed.

Lemma padded_length (w : nat) : forall n, String.length (padded w n) = w.
Proof.
  induction w as [|w IH]; intros n; [reflexivity|].
  cbn [padded]. rewrite append_length, IH. simpl. lia.
Qed.

Lemma iso_year_no_T (y : Z) : contains "T" (iso_year y) = false.
Proof.
  unfold iso_year.
  destruct ((0 <=? y) && (y <=? 9999)).
  - apply padded_no. cbn. lia.
  - rewrite contains_append, padded_no by (cbn; lia).
    now destruct (y <? 0).
Qed.

Lemma iso_date_no_T (t : Z) : contains "T" (iso_date t) = false.
Proof.
  unfold iso_date.
  rewrite !contains_append, iso_year_no_T, !padded_no by (cbn; lia).
  reflexivity.
Qed.

(** Cutting at the first [T] gives back the date in front of the time. *)
Lemma dateISO_iso_date (t : Z) : dateISO (Some t) = inr (iso_date t).
Proof.
  unfold dateISO, toISOString.
  change (iso_date t ++ "T" ++ iso_time t)%string
    with (iso_date t ++ String "T" (iso_time t))%string.
  now rewrite (split_at_first "T" _ _ (iso_date_no_T t)).
Qed.

Lemma Day_bounds (t d : Z) : msPerDay * d <= t <-> d <= Day t.
Proof.
  unfold Day, msPerDay. split; intros H.
  - apply Z.div_le_lower_bound; lia.
  - pose proof (Z.mul_div_le t 86400000 ltac:(lia)). nia.
Qed.

Lemma YearFromTime_same_day (t t' : Z) :
  Day t = Day t' -> YearFromTime t = YearFromTime t'.
Proof.
  intros Hd. symmetry. apply YearFromTime_unique.
  pose proof (YearFromTime_spec t) as [Hlo Hhi].
  unfold TimeFromYear in *. split.
  - apply Day_bounds. rewrite <- Hd. now apply Day_bounds.
  - apply Z.nle_gt. intros H. apply Day_bounds in H. rewrite <- Hd in H.
    apply Day_bounds in H. lia.
Qed.

Lemma iso_date_same_day (t t' : Z) : Day t = Day t' -> iso_date t = iso_date t'.
Proof.
  intros Hd.
  unfold iso_date, DateFromTime, MonthFromTime, DayWithinYear, InLeapYear.
  now rewrite (YearFromTime_same_day t t' Hd), Hd.
Qed.

Lemma DayFromYear_next (y : Z) : DayFromYear (y + 1) = DayFromYear y + DaysInYear y.
Proof.
  unfold DayFromYear, DaysInYear.
  destruct (Z.eqb_spec (y mod 4) 0), (Z.eqb_spec (y mod 100) 0),
           (Z.eqb_spec (y mod 400) 0); cbn [negb];
    Z.div_mod_to_equations; lia.
Qed.

Lemma DayWithinYear_bounds (t : Z) :
  0 <= DayWithinYear t < DaysInYear (YearFromTime t).
Proof.
  unfold DayWithinYear.
  pose proof (YearFromTime_spec t) as [Hlo Hhi]. unfold TimeFromYear in *.
  apply Day_bounds in Hlo.
  assert (Hhi' : Day t < DayFromYear (YearFromTime t + 1)).
  { apply Z.nle_gt. intros H. apply Day_bounds in H. lia. }
  rewrite DayFromYear_next in Hhi'. lia.
Qed.

(** The month and the day of the month are those of a calendar date, and
    with the year they give back the day. *)
Lemma calendar_date_valid (t : Z) :
  0 <= MonthFromTime t <= 11 /\
  1 <= DateFromTime t <= month_length (InLeapYear t) (MonthFromTime t) /\
  Day t = DayFromYear (YearFromTime t)
          + month_start (InLeapYear t) (MonthFromTime t) + DateFromTime t - 1.
Proof.
  pose proof (DayWithinYear_bounds t) as Hb.
  assert (Hleap : InLeapYear t = DaysInYear (YearFromTime t) - 365).
  { unfold InLeapYear, DaysInYear.
    destruct (negb (YearFromTime t mod 4 =? 0)), (negb (YearFromTime t mod 100 =? 0)),
             (negb (YearFromTime t mod 400 =? 0)); reflexivity. }
  assert (Hl : InLeapYear t = 0 \/ InLeapYear t = 1).
  { unfold InLeapYear. destruct (DaysInYear (YearFromTime t) =? 365); auto. }
  assert (Hd : Day t = DayFromYear (YearFromTime t) + DayWithinYear t)
    by (unfold DayWithinYear; lia).
  rewrite Hd. unfold DateFromTime, MonthFromTime.
  set (d := DayWithinYear t) in *. set (leap := InLeapYear t) in *.
  repeat match goal with
    | |- context [?a <? ?b] => destruct (Z.ltb_spec a b)
    end; cbn [month_start month_length]; lia.
Qed.

Lemma append_inj (a : string) :
  forall a' b b', String.length a = String.length a' ->
    (a ++ b = a' ++ b')%string -> a = a' /\ b = b'.
Proof.
  induction a as [|c a IH]; intros [|c' a'] b b' Hl E; simpl in *; try discriminate.
  - auto.
  - injection E as -> E. injection Hl as Hl.
    destruct (IH _ _ _ Hl E) as [-> ->]. auto.
Qed.

Lemma string_tail_inj (c c' : ascii) (a b : string) :
  String c a = String c' b -> c = c' /\ a = b.
Proof. intros E. injection E as -> ->. auto. Qed.

Lemma digit_inj (n n' : Z) : digit n = digit n' -> n mod 10 = n' mod 10.
Proof.
  unfold digit. intros E. apply (f_equal nat_of_ascii) in E.
  pose proof (Z.mod_pos_bound n 10 ltac:(lia)).
  pose proof (Z.mod_pos_bound n' 10 ltac:(lia)).
  rewrite !nat_ascii_embedding in E by lia. lia.
Qed.

(** The digits give the number back, up to the width. *)
Lemma padded_inj (w : nat) :
  forall n n', padded w n = padded w n' -> n mod 10 ^ Z.of_nat w = n' mod 10 ^ Z.of_nat w.
Proof.
  induction w as [|w IH]; intros n n' E.
  - now rewrite !Z.mod_1_r.
  - cbn [padded] in E.
    apply append_inj in E as [E1 E2]; [|now rewrite !padded_length].
    apply string_tail_inj in E2 as [E2 _]. apply digit_inj in E2. apply IH in E1.
    rewrite Nat2Z.inj_succ, Z.pow_succ_r by lia.
    rewrite !(Z.rem_mul_r _ 10 (10 ^ Z.of_nat w)) by lia. lia.
Qed.

Lemma iso_year_length (y : Z) :
  String.length (iso_year y) = if (0 <=? y) && (y <=? 9999) then 4%nat else 7%nat.
Proof.
  unfold iso_year. destruct ((0 <=? y) && (y <=? 9999)).
  - apply padded_length.
  - rewrite append_length, padded_length. now destruct (y <? 0).
Qed.

Lemma iso_year_inj (y y' : Z) :
  -999999 <= y <= 999999 -> -999999 <= y' <= 999999 ->
  iso_year y = iso_year y' -> y = y'.
Proof.
  intros Hy Hy' E.
  pose proof (f_equal String.length E) as El. rewrite !iso_year_length in El.
  unfold iso_year in E.
  destruct ((0 <=? y) && (y <=? 9999)) eqn:B, ((0 <=? y') && (y' <=? 9999)) eqn:B';
    try discriminate.
  - apply andb_true_iff in B as [B1 B2], B' as [B1' B2'].
    apply padded_inj in E. change (10 ^ Z.of_nat 4) with 10000 in E.
    rewrite !Z.mod_small in E by lia. exact E.
  - destruct (Z.ltb_spec y 0), (Z.ltb_spec y' 0); cbn [append] in E;
      apply string_tail_inj in E as [Es E]; try discriminate Es;
      apply padded_inj in E;
      change (10 ^ Z.of_nat 6) with 1000000 in E;
      rewrite !Z.mod_small in E by lia; lia.
Qed.

Lemma year_in_range (t : Z) : in_range t -> -271821 <= YearFromTime t <= 275760.
Proof.
  unfold in_range. intros Ht.
  pose proof (YearFromTime_spec t) as [Hlo Hhi]. split.
  - apply Z.nlt_ge. intros H.
    pose proof (TimeFromYear_mono (YearFromTime t + 1) (-271821) ltac:(lia)) as Hm.
    change (TimeFromYear (-271821)) with (-8640009417600000) in Hm. lia.
  - apply Z.nlt_ge. intros H.
    pose proof (TimeFromYear_mono 275761 (YearFromTime t) ltac:(lia)) as Hm.
    change (TimeFromYear 275761) with 8640009504000000 in Hm. lia.
Qed.

Lemma month_length_le (leap month : Z) :
  leap = 0 \/ leap = 1 -> month_length leap month <= 31.
Proof.
  intros Hl. unfold month_length.
  repeat match goal with
    | |- context [match ?x with _ => _ end] => destruct x
    end; lia.
Qed.

(** X9: for every valid date, [dateISO] returns a calendar date and
    nothing of the time: a year, a month from 01 to 12 and a day of that
    month, which together name the day in UTC of the time value; the text
    has ten characters for the years 0 to 9999 and thirteen otherwise. *)
Theorem dateISO_calendar_date (t : Z) :
  exists y m d : Z,
    dateISO (Some t) = inr (iso_year y ++ "-" ++ padded 2 m ++ "-" ++ padded 2 d)%string
    /\ 1 <= m <= 12
    /\ 1 <= d <= month_length (DaysInYear y - 365) (m - 1)
    /\ Day t = DayFromYear y + month_start (DaysInYear y - 365) (m - 1) + d - 1
    /\ String.length (iso_year y ++ "-" ++ padded 2 m ++ "-" ++ padded 2 d)%string
       = (if (0 <=? y) && (y <=? 9999) then 10%nat else 13%nat).
Proof.
  exists (YearFromTime t), (MonthFromTime t + 1), (DateFromTime t).
  assert (Hleap : InLeapYear t = DaysInYear (YearFromTime t) - 365).
  { unfold InLeapYear, DaysInYear.
    destruct (negb (YearFromTime t mod 4 =? 0)), (negb (YearFromTime t mod 100 =? 0)),
             (negb (YearFromTime t mod 400 =? 0)); reflexivity. }
  destruct (calendar_date_valid t) as (Hm & Hd & Hday).
  rewrite Hleap in Hd, Hday.
  replace (MonthFromTime t + 1 - 1) with (MonthFromTime t) by lia.
  split; [apply dateISO_iso_date|].
  split; [lia|]. split; [exact Hd|]. split; [exact Hday|].
  rewrite append_length, iso_year_length. cbn [append String.length].
  rewrite append_length, !padded_length.
  destruct ((0 <=? YearFromTime t) && (YearFromTime t <=? 9999)); reflexivity.
Qed.

(** X10: two dates in the range of time values have the same [dateISO]
    exactly when their time values are on the same day in UTC. *)
Theorem dateISO_identifies_day (t t' : Z) :
  in_range t -> in_range t' ->
  (dateISO (Some t) = dateISO (Some t') <-> Day t = Day t').
Proof.
  intros Ht Ht'. rewrite !dateISO_iso_date. split.
  - intros E. injection E as E.
    pose proof (year_in_range t Ht) as Hy. pose proof (year_in_range t' Ht') as Hy'.
    destruct (calendar_date_valid t) as (Hm & Hd & Hday).
    destruct (calendar_date_valid t') as (Hm' & Hd' & Hday').
    assert (Hl : forall u, InLeapYear u = 0 \/ InLeapYear u = 1).
    { intros u. unfold InLeapYear. destruct (DaysInYear (YearFromTime u) =? 365); auto. }
    assert (Hd31 : DateFromTime t <= 31 /\ DateFromTime t' <= 31).
    { split; eapply Z.le_trans;
        [apply Hd | apply month_length_le, Hl | apply Hd' | apply month_length_le, Hl]. }
    unfold iso_date in E.
    pose proof (f_equal String.length E) as El.
    rewrite !append_length, !padded_length in El. cbn [String.length] in El.
    apply append_inj in E as [Ey E]; [|lia].
    apply iso_year_inj in Ey; [|lia|lia].
    cbn [append] in E. apply string_tail_inj in E as [_ E].
    apply append_inj in E as [Em E]; [|now rewrite !padded_length].
    apply string_tail_inj in E as [_ E].
    apply padded_inj in Em, E. change (10 ^ Z.of_nat 2) with 100 in Em, E.
    rewrite !Z.mod_small in Em, E by lia.
    assert (HL : InLeapYear t = InLeapYear t') by (unfold InLeapYear; now rewrite Ey).
    rewrite Hday, Hday', Ey, HL, E.
    replace (MonthFromTime t) with (MonthFromTime t') by lia. reflexivity.
  - intros Hd. f_equal. now apply iso_date_same_day.
Qed.

End DateMore.

Lemma dateISO_identifies_day_witness :
  JSDate.dateISO (Some 1709596800000%Z) = JSDate.dateISO (Some 1709683199999%Z)
  <-> JSDate.Day 1709596800000 = JSDate.Day 1709683199999.
Proof.
  apply (dateISO_identifies_day 1709596800000 1709683199999);
    unfold Calendar.in_range; lia.
Defined.

Section DateShortMore.
Import JSDate.
Local Open Scope Z_scope.

Variable LocalTZA : Z -> Z.
Variable toLocaleString : Date -> string -> DateTimeFormatOptions -> string.

(** X11: for a date whose local year is the year of the clock or a later
    one, and for an invalid date, [dateShort] asks for the month and the
    day only: a date in a coming year is shown without its year. *)
Theorem dateShort_no_year_otherwise (now : Z) (value : Date) :
  (forall year current : Z,
     getFullYear LocalTZA value = Some year ->
     getFullYear LocalTZA (Some now) = Some current ->
     current <= year ->
     dateShort LocalTZA toLocaleString now value =
     toLocaleString value "en"%string
       [("month", "long"); ("day", "numeric")]%string) /\
  dateShort LocalTZA toLocaleString now None =
    toLocaleString None "en"%string [("month", "long"); ("day", "numeric")]%string.
Proof.
  unfold dateShort. split; [|reflexivity].
  intros year current Hy Hc Hle. rewrite Hy, Hc. unfold number_lt.
  apply Z.ltb_ge in Hle. now rewrite Hle.
Qed.

End DateShortMore.

Lemma dateShort_no_year_otherwise_witness :
  JSDate.dateShort Sample.LocalTZA Sample.toLocaleString
    1709596800000%Z (Some 1767225600000%Z) = "month,day".
Proof.
  destruct (dateShort_no_year_otherwise Sample.LocalTZA Sample.toLocaleString
              1709596800000%Z (Some 1767225600000%Z)) as [Hlater _].
  apply (Hlater 2026%Z 2024%Z).
  - reflexivity.
  - reflexivity.
  - lia.
Defined.

(** * More about the transforms *)

Section TransformMore.
Import Promise Promise.Notations.

(** No path ends in both extensions. *)
Lemma html_xml_exclusive (path : option string) :
  path_endsWith path ".html" = true -> path_endsWith path ".xml" = false.
Proof.
  intros H. destruct (path_endsWith path ".xml") eqn:E; [|reflexivity].
  apply path_endsWith_spec in H as [stem H].
  apply path_endsWith_spec in E as [stem' E].
  rewrite H in E. injection E as E.
  replace (stem ++ ".html") with ((stem ++ ".") ++ "html") in E
    by now rewrite append_assoc.
  apply (f_equal String.length) in E as El. rewrite !append_length in El. simpl in El.
  apply append_inj in E as [_ E]; [discriminate|].
  rewrite append_length. simpl. lia.
Qed.

Variable World : Type.
Variable Window : Type.
Variable htmlMin_minify : string -> MinifyOptions -> exn + string.
Variable pd_xmlmin : string -> exn + string.
Variable dom_parseHTML : string -> Async World Window.
Variable document_toString : Window -> Async World string.
Variables anchors demos figure images prism : transform World Window.

Let run : string -> option string -> Async World string :=
  html_transform World Window dom_parseHTML document_toString
    anchors demos figure images prism.

Let all : string -> option string -> Async World string :=
  run_transforms World
    (transforms World Window htmlMin_minify pd_xmlmin dom_parseHTML document_toString
       anchors demos figure images prism).

Let options : MinifyOptions :=
  {| collapseBooleanAttributes := true;
     collapseWhitespace := true;
     decodeEntities := true;
     includeAutoGeneratedTags := false;
     removeComments := true |}.

(** X12: for a path that does not end in [.html], and when there is no
    path, the transform returns the content and leaves the world as it
    is: nothing is parsed and no pass runs. *)
Theorem html_transform_other_paths (content : string) (path : option string) (w : World) :
  (forall stem, path <> Some (stem ++ ".html")) ->
  run content path w = inr (content, w).
Proof.
  intros H. unfold run, html_transform.
  destruct path as [p|]; [|reflexivity].
  destruct (JSString.endsWith p ".html") eqn:E; [|reflexivity].
  apply endsWith_spec in E as [stem ->]. now contradiction (H stem).
Qed.

Lemma for_of_throws {A : Type} (body : A -> Async World unit)
    (pre : list A) (x : A) (post : list A) (e : exn) (w w' : World) :
  for_of pre body w = inr (tt, w') ->
  body x w' = inl e ->
  for_of (pre ++ x :: post)%list body w = inl e.
Proof.
  revert w. induction pre as [|y pre IH]; intros w Hpre Hx; cbn [for_of app] in *.
  - unfold ret in Hpre. injection Hpre as ->. unfold bind. now rewrite Hx.
  - unfold bind in *. destruct (body y w) as [e'|[[] w1]]; [discriminate|].
    now apply IH.
Qed.

(** X13: when the parse throws, or when the passes in front of one of the
    five have settled and that pass throws, the transform throws the same
    exception: the passes behind it do not run and no content is
    returned. *)
Theorem html_transform_throws (content stem : string) (e : exn) (w0 : World) :
  (dom_parseHTML content w0 = inl e ->
     run content (Some (stem ++ ".html")) w0 = inl e) /\
  (forall (window : Window) (w1 w2 : World)
          (pre : list (transform World Window)) (pass : transform World Window)
          (post : list (transform World Window)),
     [anchors; demos; figure; images; prism] = (pre ++ pass :: post)%list ->
     dom_parseHTML content w0 = inr (window, w1) ->
     for_of pre (fun t => t window content (stem ++ ".html")) w1 = inr (tt, w2) ->
     pass window content (stem ++ ".html") w2 = inl e ->
     run content (Some (stem ++ ".html")) w0 = inl e).
Proof.
  assert (E : JSString.endsWith (stem ++ ".html") ".html" = true)
    by (apply endsWith_spec; eauto).
  unfold run, html_transform, htmlTransforms. rewrite E. split.
  - intros H. unfold bind. now rewrite H.
  - intros window w1 w2 pre pass post Hsplit Hparse Hpre Hpass.
    rewrite Hsplit. unfold bind at 1. rewrite Hparse.
    unfold bind at 1.
    now rewrite (for_of_throws _ pre pass post e w1 w2 Hpre Hpass).
Qed.

(** X14: with the transforms run in the order of their registration, a
    page whose path ends in [.html] is minified first and parsed and
    passed through the five passes afterwards, on the minified text; a
    file whose path ends in [.xml] goes through the XML minifier only;
    every other content comes out as it went in, in an unchanged world. *)
Theorem transforms_in_registration_order (content : string) (w : World) :
  (forall stem,
     all content (Some (stem ++ ".html")) w =
     (minified <- settle World (htmlMin_minify content options) ;;
      run minified (Some (stem ++ ".html"))) w) /\
  (forall stem,
     all content (Some (stem ++ ".xml")) w = settle World (pd_xmlmin content) w) /\
  (forall path,
     (forall stem, path <> Some (stem ++ ".html")) ->
     (forall stem, path <> Some (stem ++ ".xml")) ->
     all content path w = inr (content, w)).
Proof.
  unfold all, transforms. cbn [run_transforms]. fold run.
  split; [|split].
  - intros stem.
    assert (Eh : path_endsWith (Some (stem ++ ".html")) ".html" = true)
      by (apply path_endsWith_spec; eauto).
    pose proof (html_xml_exclusive _ Eh) as Ex.
    unfold html_minify, xmlMin. rewrite Eh, Ex. fold options.
    unfold bind, settle, ret.
    destruct (htmlMin_minify content options) as [e|minified]; [reflexivity|].
    destruct (run minified (Some (stem ++ ".html")) w) as [e|[out w1]]; reflexivity.
  - intros stem.
    assert (Ex : path_endsWith (Some (stem ++ ".xml")) ".xml" = true)
      by (apply path_endsWith_spec; eauto).
    assert (Eh : path_endsWith (Some (stem ++ ".xml")) ".html" = false).
    { destruct (path_endsWith (Some (stem ++ ".xml")) ".html") eqn:E; [|reflexivity].
      apply html_xml_exclusive in E. congruence. }
    unfold html_minify, xmlMin. rewrite Eh, Ex.
    unfold bind, settle, ret.
    rewrite (html_transform_other_paths content (Some (stem ++ ".xml")) w).
    + destruct (pd_xmlmin content); reflexivity.
    + intros stem' E.
      assert (Eh' : path_endsWith (Some (stem ++ ".xml")) ".html" = true)
        by (apply path_endsWith_spec; eauto).
      congruence.
  - intros path Hh Hx.
    unfold html_minify, xmlMin.
    rewrite (path_endsWith_false _ _ Hh), (path_endsWith_false _ _ Hx).
    unfold bind, settle, ret.
    now rewrite (html_transform_other_paths content path w Hh).
Qed.

End TransformMore.

Lemma not_this_extension (p ext : string) :
  JSString.endsWith p ext = false -> forall stem, Some p <> Some (stem ++ ext).
Proof.
  intros H stem E. injection E as E.
  assert (Ht : JSString.endsWith p ext = true) by (apply endsWith_spec; eauto).
  congruence.
Qed.

Lemma html_transform_other_paths_witness :
  html_transform string unit Sample.parseHTML Sample.toString
    (Sample.pass "anchors") (Sample.pass "demos") (Sample.pass "figure")
    (Sample.pass "images") (Sample.pass "prism")
    "<feed/>" (Some "feed.xml") "world" = inr ("<feed/>", "world").
Proof.
  apply (html_transform_other_paths string unit Sample.parseHTML Sample.toString
           (Sample.pass "anchors") (Sample.pass "demos") (Sample.pass "figure")
           (Sample.pass "images") (Sample.pass "prism")
           "<feed/>" (Some "feed.xml") "world").
  apply not_this_extension. reflexivity.
Defined.

Lemma html_transform_throws_witness :
  html_transform string unit Sample.parseHTML Sample.toString
    (Sample.pass "anchors") (Sample.pass "demos") Host.broken
    (Sample.pass "images") (Sample.pass "prism")
    "<p>" (Some ("index" ++ ".html")) EmptyString = inl (Failure "figure").
Proof.
  destruct (html_transform_throws string unit Sample.parseHTML Sample.toString
              (Sample.pass "anchors") (Sample.pass "demos") Host.broken
              (Sample.pass "images") (Sample.pass "prism")
              "<p>" "index" (Failure "figure") EmptyString) as [_ Hpass].
  apply (Hpass tt "<p>" "<p>[anchors][demos]"
           [Sample.pass "anchors"; Sample.pass "demos"] Host.broken
           [Sample.pass "images"; Sample.pass "prism"]); reflexivity.
Defined.

Lemma transforms_in_registration_order_witness :
  run_transforms string
    (transforms string unit Sample.minifier (fun content => inr content)
       Sample.parseHTML Sample.toString
       (Sample.pass "anchors") (Sample.pass "demos") (Sample.pass "figure")
       (Sample.pass "images") (Sample.pass "prism"))
    "User-agent: *" (Some "robots.txt") "world" = inr ("User-agent: *", "world").
Proof.
  destruct (transforms_in_registration_order string unit Sample.minifier
              (fun content => inr content) Sample.parseHTML Sample.toString
              (Sample.pass "anchors") (Sample.pass "demos") (Sample.pass "figure")
              (Sample.pass "images") (Sample.pass "prism")
              "User-agent: *" "world") as (_ & _ & Hother).
  apply Hother; apply not_this_extension; reflexivity.
Defined.

(** * The style sheet filter *)

Section CssFilterFacts.
Import Promise Promise.Notations.

Variable World : Type.
Variable plugin : Type.
Variables postcssImport postcssMediaMinmax autoprefixer postcssCsso : plugin.
Variable postcss_process :
  list plugin -> string -> ProcessOptions -> Async World ProcessResult.
Variable postcss_process_undefined :
  list plugin -> ProcessOptions -> Async World ProcessResult.
Variable fs_readFile : string -> string -> World -> (exn + string) * World.

Let filter : string -> Async World (option exn * string) :=
  css_filter World plugin postcssImport postcssMediaMinmax autoprefixer postcssCsso
    postcss_process postcss_process_undefined fs_readFile.

Let render : string -> string -> Async World string :=
  css_render World plugin postcssImport postcssMediaMinmax autoprefixer postcssCsso
    postcss_process.

(** X15: the filter never hands an error to its callback, whatever the
    path, read or not; and when the file is read, the callback gets the
    style sheet that the render function of the compile step returns for
    the content of the file, on the allow-list or not, or is not called
    when that function throws. *)
Theorem css_filter_like_compile (path : string) (w : World) :
  (forall error sheet w', filter path w = inr ((error, sheet), w') -> error = None) /\
  (forall content w',
     fs_readFile path "utf8" w = (inr content, w') ->
     filter path w =
     match render content path w' with
     | inl e => inl e
     | inr (sheet, w'') => inr ((None, sheet), w'')
     end).
Proof.
  unfold filter, render, css_filter, css_render, bind, ret. split.
  - intros error sheet w' H.
    destruct (fs_readFile path "utf8" w) as [[e|content] w1].
    + destruct (postcss_process_undefined _ _ w1) as [e'|[output w2]]; [discriminate|].
      now injection H as <- _ _.
    + destruct (postcss_process _ _ _ w1) as [e'|[output w2]]; [discriminate|].
      now injection H as <- _ _.
  - intros content w' Hread. rewrite Hread.
    now destruct (postcss_process _ _ _ w') as [e'|[output w2]].
Qed.

End CssFilterFacts.

Lemma css_filter_like_compile_witness :
  css_filter unit string "import" "minmax" "autoprefixer" "csso"
    Sample.process Host.process_undefined Host.readFile
    "./src/styles/print.css" tt
  = inr ((None, "import+minmax+autoprefixer+csso:a{}"), tt).
Proof.
  destruct (css_filter_like_compile unit string "import" "minmax" "autoprefixer" "csso"
              Sample.process Host.process_undefined Host.readFile
              "./src/styles/print.css" tt) as [_ Hread].
  rewrite (Hread "a{}" tt eq_refl). reflexivity.
Defined.
